(** * Tessera SDK: transaction codec, hashing, key derivation and formatting

    A shallow embedding of the TypeScript sources
    ([src/utils/format.ts], [src/utils/constants.ts], [src/crypto/hash.ts],
    [src/crypto/keys.ts], [src/crypto/mnemonic.ts], [src/transaction/index.ts],
    [src/types/index.ts]) together with the properties stated about them.

    Conventions.
    - A [Uint8Array] is a [list byte].
    - A JavaScript string is a [string]; every operation works on the
      sequence of its code units ([units]), one Rocq character standing for
      the code unit of the same number (so code units 0..255 are covered).
    - A [bigint] is a [Z]; an integer-valued [number] is a [Z] as well.
    - A function that may throw returns a [result]; [Throw] carries the
      exception.
    - Library and platform functions the SDK calls but does not define
      (SHA3-256, Ed25519, BIP39, [TextEncoder], [JSON.stringify]) are the
      fields of the class [Externals]. *)

From Stdlib Require Import ZArith NArith Ascii String List Lia.
From Stdlib.Strings Require Import Byte.
From stdpp Require Import base option list gmap strings.
From Equations Require Import Equations.

Local Open Scope Z_scope.
Local Open Scope list_scope.

Abbreviation bytes := (list byte).

(** ** Exceptions *)

(** [ErrorCode] of [src/types/index.ts]. *)
Inductive ErrorCode :=
| NetworkError | RpcError | Timeout
| InvalidAddress | InvalidSignature | InvalidTransaction | InvalidMnemonic
| InsufficientBalance | InvalidNonce | AccountNotFound
| SigningError | KeyGenerationError.

(** What a call can throw: the SDK's own [TesseraError] or the [SyntaxError]
    raised by the built-in [BigInt] on a malformed literal. *)
Inductive exn :=
| TesseraError (code : ErrorCode)
| SyntaxError.

Inductive result (A : Type) :=
| Ok (a : A)
| Throw (e : exn).
Arguments Ok {A} a.
Arguments Throw {A} e.

(** Sequencing: the first exception thrown ends the computation. *)
#[global] Instance result_ret : MRet result := fun A a => Ok a.
#[global] Instance result_bind : MBind result := fun A B k r =>
  match r with
  | Ok a => k a
  | Throw e => Throw e
  end.

(** ** The JavaScript runtime primitives the sources rely on *)

Module Js.

(** The code units of a string, and the string of a code-unit sequence. *)
Definition units (s : string) : list ascii := list_ascii_of_string s.
Definition str (l : list ascii) : string := string_of_list_ascii l.

Definition code (c : ascii) : N := N_of_ascii c.

(** [StrWhiteSpaceChar] (WhiteSpace and LineTerminator) among the code
    units below 256: TAB, LF, VT, FF, CR, SP and NBSP. *)
Definition is_ws (c : ascii) : bool :=
  let n := code c in
  ((9 <=? n) && (n <=? 13) || (n =? 32) || (n =? 160))%N.

(** Value of a character as a digit (letters are digits 10..35, in either
    case), as [parseInt] and the numeric literals read them. *)
Definition digit_val (c : ascii) : option N :=
  let n := code c in
  if ((48 <=? n) && (n <=? 57))%N then Some (n - 48)%N
  else if ((97 <=? n) && (n <=? 122))%N then Some (n - 87)%N
  else if ((65 <=? n) && (n <=? 90))%N then Some (n - 55)%N
  else None.

Definition is_digit (radix : N) (c : ascii) : bool :=
  match digit_val c with
  | Some d => (d <? radix)%N
  | None => false
  end.

(** The mathematical value of a digit sequence in a radix. *)
Definition digit_step (radix : N) (acc : N) (c : ascii) : N :=
  (acc * radix + default 0 (digit_val c))%N.

Definition radix_value (radix : N) (l : list ascii) : N :=
  fold_left (digit_step radix) l 0%N.

Fixpoint skip_ws (l : list ascii) : list ascii :=
  match l with
  | c :: r => if is_ws c then skip_ws r else l
  | [] => []
  end.

Fixpoint digit_prefix (radix : N) (l : list ascii) : list ascii :=
  match l with
  | c :: r => if is_digit radix c then c :: digit_prefix radix r else []
  | [] => []
  end.

Definition is_x (c : ascii) : bool := ((code c =? 120) || (code c =? 88))%N.

(** [parseInt(s, 16)]; [None] is [NaN].  Leading white space is skipped,
    one sign is read, one "0x" or "0X" is dropped, and the longest run of
    hexadecimal digits that follows is the number. *)
Definition parseInt16 (s : list ascii) : option Z :=
  let s1 := skip_ws s in
  let '(sign, s2) :=
    match s1 with
    | c :: r => if (code c =? 45)%N then (-1, r)
                else if (code c =? 43)%N then (1, r) else (1, s1)
    | [] => (1, s1)
    end in
  let s3 :=
    match s2 with
    | z :: x :: r => if (code z =? 48)%N && is_x x then r else s2
    | _ => s2
    end in
  match digit_prefix 16 s3 with
  | [] => None
  | ds => Some (sign * Z.of_N (radix_value 16 ds))
  end.

(** Storing a number into a [Uint8Array] slot keeps it modulo 256. *)
Definition to_uint8 (z : Z) : byte :=
  default x00 (Byte.of_N (Z.to_N (z mod 256))).

Definition digit_char (d : N) : ascii :=
  ascii_of_N (if (d <? 10)%N then d + 48 else d + 87).

(** [n.toString(16)] for a byte value [n < 256]. *)
Definition toString16 (n : N) : list ascii :=
  if (n <? 16)%N then [digit_char n]
  else [digit_char (n / 16); digit_char (n mod 16)].

Definition padStart (len : nat) (c : ascii) (l : list ascii) : list ascii :=
  repeat c (len - length l) ++ l.

Definition padEnd (len : nat) (c : ascii) (l : list ascii) : list ascii :=
  l ++ repeat c (len - length l).

(** [s.slice(start, end)]; a negative index counts from the end, and
    [end = None] is the call with one argument. *)
Definition slice (l : list ascii) (start : Z) (end_ : option Z) : list ascii :=
  let len := Z.of_nat (length l) in
  let clamp i := if i <? 0 then Z.max (len + i) 0 else Z.min i len in
  let from := clamp start in
  let to := clamp (default len end_) in
  take (Z.to_nat (to - from)) (drop (Z.to_nat from) l).

(** [s.split(sep)] for a one-character separator. *)
Fixpoint split (sep : ascii) (l : list ascii) : list (list ascii) :=
  match l with
  | [] => [[]]
  | c :: r =>
      if Ascii.eqb c sep then [] :: split sep r
      else match split sep r with
           | h :: t => (c :: h) :: t
           | [] => [[c]]
           end
  end.

(** [s.replace(/0+$/, '')]. *)
Fixpoint strip_trailing_zeros (l : list ascii) : list ascii :=
  match l with
  | [] => []
  | c :: r =>
      match strip_trailing_zeros r with
      | [] => if (code c =? 48)%N then [] else [c]
      | r' => c :: r'
      end
  end.

(** Decimal digits of a natural number, most significant first. *)
Fixpoint decimal_go (fuel : nat) (n : N) (acc : list ascii) : list ascii :=
  let acc' := digit_char (n mod 10) :: acc in
  match fuel with
  | O => acc'
  | S f => if (n / 10 =? 0)%N then acc' else decimal_go f (n / 10) acc'
  end.

Definition decimal (n : N) : list ascii := decimal_go (N.size_nat n) n [].

(** [b.toString()] for a bigint [b]. *)
Definition bigint_toString (z : Z) : list ascii :=
  if z <? 0 then ascii_of_N 45 :: decimal (Z.abs_N z) else decimal (Z.abs_N z).

Fixpoint trim_end (l : list ascii) : list ascii :=
  match l with
  | [] => []
  | c :: r =>
      match trim_end r with
      | [] => if is_ws c then [] else [c]
      | r' => c :: r'
      end
  end.

Definition digits_in (radix : N) (l : list ascii) : option Z :=
  match l with
  | [] => None
  | _ => if forallb (is_digit radix) l
         then Some (Z.of_N (radix_value radix l)) else None
  end.

(** [BigInt(s)] on a string (StringToBigInt): white space is trimmed at
    both ends; the empty string is 0; otherwise a hexadecimal, octal or
    binary literal without sign, or a decimal literal with an optional
    sign.  [None] is a [SyntaxError]. *)
Definition StringToBigInt (s : list ascii) : option Z :=
  match trim_end (skip_ws s) with
  | [] => Some 0
  | c :: r =>
      let whole := c :: r in
      if (code c =? 45)%N then Z.opp <$> digits_in 10 r
      else if (code c =? 43)%N then digits_in 10 r
      else match r with
           | p :: r' =>
               if (code c =? 48)%N && is_x p then digits_in 16 r'
               else if (code c =? 48)%N && ((code p =? 111) || (code p =? 79))%N
               then digits_in 8 r'
               else if (code c =? 48)%N && ((code p =? 98) || (code p =? 66))%N
               then digits_in 2 r'
               else digits_in 10 whole
           | [] => digits_in 10 whole
           end
  end.

Definition BigInt (s : list ascii) : result Z :=
  match StringToBigInt s with
  | Some z => Ok z
  | None => Throw SyntaxError
  end.

End Js.

(** ** [src/utils/constants.ts] *)

Definition TOKEN_DECIMALS : nat := 6.
Definition BASE_FEE : Z := 1000.
Definition FEE_PER_KB_PAYLOAD : Z := 100.
Definition STAKING_FEE : Z := 10000.
Definition MAX_PAYLOAD_SIZE : nat := 10 * 1024.
Definition ADDRESS_LENGTH : nat := 32.

(** ** [src/utils/format.ts] *)

Definition hex_pair (b : byte) : list ascii :=
  Js.padStart 2 "0"%char (Js.toString16 (Byte.to_N b)).

(** [Array.from(bytes).map(b => b.toString(16).padStart(2, '0')).join('')] *)
Definition bytesToHex (bs : bytes) : string :=
  Js.str (concat (map hex_pair bs)).

(** [hex.startsWith('0x') ? hex.slice(2) : hex] *)
Definition strip_0x (hex : list ascii) : list ascii :=
  match hex with
  | z :: x :: r => if Ascii.eqb z "0" && Ascii.eqb x "x" then r else hex
  | _ => hex
  end.

(** The loop of [hexToBytes]: the string is read two code units at a time,
    each pair goes through [parseInt(pair, 16)], and the first [NaN] throws.
    (The one-character case is the [substring] at the end of an odd-length
    string; [hexToBytes] never reaches it.) *)
Fixpoint hex_pairs (l : list ascii) : result bytes :=
  match l with
  | [] => Ok []
  | a :: b :: r =>
      match Js.parseInt16 [a; b] with
      | None => Throw (TesseraError InvalidAddress)
      | Some v => rest ← hex_pairs r; Ok (Js.to_uint8 v :: rest)
      end
  | [a] =>
      match Js.parseInt16 [a] with
      | None => Throw (TesseraError InvalidAddress)
      | Some v => Ok [Js.to_uint8 v]
      end
  end.

Definition hexToBytes (hex : string) : result bytes :=
  let cleanHex := strip_0x (Js.units hex) in
  if negb (Nat.even (length cleanHex))
  then Throw (TesseraError InvalidAddress)
  else hex_pairs cleanHex.

(** [parseAmount], on a string argument.  (A [number] argument is first
    printed with [toString]; floating-point printing is outside this model.) *)
Definition parseAmount (amount : string) : result Z :=
  let parts := Js.split "." (Js.units amount) in
  if (2 <? length parts)%nat then Throw (TesseraError InvalidTransaction)
  else
    (* parts[0] || '0' *)
    let integerPart :=
      match parts !! 0%nat with
      | Some (c :: r) => c :: r
      | _ => ["0"%char]
      end in
    (* parts[1] || '' *)
    let decimalPart := default [] (parts !! 1%nat) in
    let decimalPart :=
      if (TOKEN_DECIMALS <? length decimalPart)%nat
      then Js.slice decimalPart 0 (Some (Z.of_nat TOKEN_DECIMALS))
      else Js.padEnd TOKEN_DECIMALS "0" decimalPart in
    let combined := integerPart ++ decimalPart in
    result ← Js.BigInt combined;
    if result <? 0 then Throw (TesseraError InvalidTransaction)
    else Ok result.

Definition formatAmountWith (baseUnits : Z) (decimals : nat) : string :=
  let str := Js.padStart (decimals + 1) "0" (Js.bigint_toString baseUnits) in
  (* str.slice(0, -decimals) || '0' *)
  let integerPart :=
    match Js.slice str 0 (Some (- Z.of_nat decimals)) with
    | [] => ["0"%char]
    | s => s
    end in
  let decimalPart := Js.slice str (- Z.of_nat decimals) None in
  let trimmedDecimal := Js.strip_trailing_zeros decimalPart in
  match trimmedDecimal with
  | [] => Js.str integerPart
  | _ => Js.str (integerPart ++ "."%char :: trimmedDecimal)
  end.

(** [formatAmount(baseUnits)], with the default [decimals = TOKEN_DECIMALS]. *)
Definition formatAmount (baseUnits : Z) : string :=
  formatAmountWith baseUnits TOKEN_DECIMALS.

(** ** Types of [src/types/index.ts] *)

(** [enum TxType], in declaration order: the ordinals are 0..4. *)
Inductive TxType := Transfer | Stake | Unstake | SubmitProposal | Vote.

#[global] Instance TxType_eq_dec : EqDecision TxType.
Proof. solve_decision. Defined.

Definition ordinal (k : TxType) : Z :=
  match k with
  | Transfer => 0
  | Stake => 1
  | Unstake => 2
  | SubmitProposal => 3
  | Vote => 4
  end.

Inductive VoteOption := Yes | No | Abstain | NoWithVeto.

(** [interface Transaction].  The type of the [txType] field is a parameter:
    it is [TxType] everywhere except in the result of [jsonToTransaction],
    whose table lookup can deliver a value that is not a [TxType]. *)
Record TransactionOf (K : Type) := mkTransaction {
  txType : K;
  chainId : string;
  from : bytes;
  to : bytes;
  amount : Z;
  payload : option bytes;
  nonce : Z;
  timestamp : Z;
  signature : bytes;
}.
Arguments mkTransaction {K}.
Arguments txType {K}.
Arguments chainId {K}.
Arguments from {K}.
Arguments to {K}.
Arguments amount {K}.
Arguments payload {K}.
Arguments nonce {K}.
Arguments timestamp {K}.
Arguments signature {K}.

Abbreviation Transaction := (TransactionOf TxType).

(** [interface TransactionJson]; [payload] is [string | null], [hash] and
    [fee] are optional. *)
Module Wire.
Record TransactionJson := mk {
  tx_type : string;
  chain_id : string;
  from : string;
  to : string;
  amount : string;
  payload : option string;
  nonce : string;
  timestamp : string;
  signature : string;
  hash : option string;
  fee : option string;
}.
End Wire.

(** [interface ProposalPayload]; a change value is a number or a string. *)
Record ProposalPayload := {
  title : string;
  description : string;
  changes : list (string * (Z + string));
}.

(** Option records of the builder ([payload] of a transfer is
    [Uint8Array | string], optional). *)
Record TransferOptions := {
  transfer_to : string;
  transfer_amount : Z;
  transfer_payload : option (bytes + string);
  transfer_nonce : Z;
  transfer_chainId : option string;
  transfer_timestamp : option Z;
}.

Record StakeOptions := {
  stake_amount : Z;
  stake_nonce : Z;
  stake_chainId : option string;
  stake_timestamp : option Z;
}.

Record UnstakeOptions := {
  unstake_amount : Z;
  unstake_nonce : Z;
  unstake_chainId : option string;
  unstake_timestamp : option Z;
}.

Record SubmitProposalOptions := {
  proposal_title : string;
  proposal_description : string;
  proposal_changes : list (string * (Z + string));
  proposal_deposit : Z;
  proposal_nonce : Z;
  proposal_chainId : option string;
  proposal_timestamp : option Z;
}.

Record VoteOptions := {
  vote_proposalId : Z;
  vote_option : VoteOption;
  vote_nonce : Z;
  vote_chainId : option string;
  vote_timestamp : option Z;
}.

(** ** Library functions used by the SDK *)

Class Externals := {
  (** [sha3_256] of [@noble/hashes] *)
  sha3_256 : bytes -> bytes;
  (** [new TextEncoder().encode] *)
  utf8_encode : string -> bytes;
  (** [ed.getPublicKey(privateKey)] *)
  ed_getPublicKey : bytes -> bytes;
  (** [ed.sign(message, privateKey)] *)
  ed_sign : bytes -> bytes -> bytes;
  (** [validateMnemonic(mnemonic, wordlist)] of [@scure/bip39] *)
  validateMnemonic : string -> bool;
  (** [mnemonicToSeedSync(mnemonic, passphrase)] *)
  mnemonicToSeedSync : string -> string -> bytes;
  (** [JSON.stringify] of a proposal payload *)
  stringify_proposal : ProposalPayload -> string;
  (** [JSON.stringify({proposal_id: Number(proposalId), option})] *)
  stringify_vote : Z -> VoteOption -> string;
}.

(** A stand-in implementation, used to run the definitions on examples. *)
Definition sample_externals : Externals := {|
  sha3_256 := fun d => take 32 (reverse d ++ repeat x00 32);
  utf8_encode := fun s => map byte_of_ascii (Js.units s);
  ed_getPublicKey := fun k => reverse k;
  ed_sign := fun m k => take 64 (k ++ m ++ repeat xff 64);
  validateMnemonic := fun m => bool_decide (m <> ""%string);
  mnemonicToSeedSync := fun m p =>
    take 64 (map byte_of_ascii (Js.units m ++ Js.units p) ++ repeat x00 64);
  stringify_proposal := fun p => title p;
  stringify_vote := fun _ _ => "{}"%string;
|}.

Section Sdk.
Context {ext : Externals}.

(** ** [src/crypto/hash.ts] *)

(** [hash(data: string | Uint8Array)] *)
Definition hash (data : string + bytes) : bytes :=
  let bytes :=
    match data with
    | inl s => utf8_encode s
    | inr b => b
    end in
  sha3_256 bytes.

Definition hashHex (data : string + bytes) : string := bytesToHex (hash data).

(** One pass of the inner [for] loop of [merkleRoot]: [left_] is
    [currentLevel[i]], [right_] is [currentLevel[i + 1] || left], and [i]
    advances by two. *)
Fixpoint nextLevel (currentLevel : list bytes) : list bytes :=
  match currentLevel with
  | [] => []
  | left_ :: rest =>
      match rest with
      | [] => [hash (inr (left_ ++ left_))]
      | right_ :: rest' => hash (inr (left_ ++ right_)) :: nextLevel rest'
      end
  end.

Lemma nextLevel_length (l : list bytes) :
  length (nextLevel l) = Nat.div2 (S (length l)).
Proof.
  induction l as [l IH] using (induction_ltof1 _ (@length bytes)).
  destruct l as [|a [|b r]]; [reflexivity..|].
  cbn [nextLevel length]. rewrite IH by (unfold ltof; simpl; lia).
  reflexivity.
Qed.

Lemma nextLevel_shrinks (l : list bytes) :
  (1 < length l)%nat -> (length (nextLevel l) < length l)%nat.
Proof.
  intros H. rewrite nextLevel_length, Nat.div2_div.
  apply Nat.Div0.div_lt_upper_bound. lia.
Qed.

(** The [while (currentLevel.length > 1)] loop. *)
Equations? merkleLoop (currentLevel : list bytes) : list bytes
  by wf (length currentLevel) lt :=
  merkleLoop currentLevel with decide (1 < length currentLevel)%nat => {
    | left _ := merkleLoop (nextLevel currentLevel);
    | right _ := currentLevel }.
Proof. by apply nextLevel_shrinks. Qed.

(** [merkleRoot(hashes)]; the final [currentLevel[0]] is a lookup, [None]
    standing for [undefined]. *)
Definition merkleRoot (hashes : list bytes) : option bytes :=
  match hashes with
  | [] => Some (hash (inr []))
  | [h] => Some h
  | _ => merkleLoop hashes !! 0%nat
  end.

(** ** [src/crypto/keys.ts] *)

Record KeyPair := mkKeyPair {
  privateKey : bytes;
  _publicKey : bytes;
}.

Definition fromPrivateKey (privateKey : bytes) : result KeyPair :=
  if negb (length privateKey =? 32)%nat
  then Throw (TesseraError KeyGenerationError)
  else
    let publicKey := ed_getPublicKey privateKey in
    Ok (mkKeyPair privateKey publicKey).

Definition fromSeed (seed : bytes) : result KeyPair :=
  if negb (length seed =? 32)%nat
  then Throw (TesseraError KeyGenerationError)
  else fromPrivateKey seed.

Definition publicKey (this : KeyPair) : bytes := _publicKey this.

Definition KeyPair_sign (this : KeyPair) (message : bytes) : bytes :=
  ed_sign message (privateKey this).

(** ** [src/crypto/mnemonic.ts] *)

Definition isValidMnemonic (mnemonic : string) : bool :=
  validateMnemonic mnemonic.

(** [new DataView(buf).setUint32(0, v, false)] on a 4-byte buffer: the
    value is taken modulo 2^32 and written most significant byte first. *)
Definition setUint32_be (v : Z) : bytes :=
  let u := v mod 2 ^ 32 in
  [Js.to_uint8 (Z.shiftr u 24); Js.to_uint8 (Z.shiftr u 16);
   Js.to_uint8 (Z.shiftr u 8); Js.to_uint8 u].

(** [mnemonicToKeyPair(mnemonic, passphrase = '', accountIndex = 0)] *)
Definition mnemonicToKeyPair
    (mnemonic passphrase : string) (accountIndex : Z) : result KeyPair :=
  if negb (isValidMnemonic mnemonic)
  then Throw (TesseraError InvalidMnemonic)
  else
    let seed := mnemonicToSeedSync mnemonic passphrase in
    let accountBytes := setUint32_be accountIndex in
    let combined := seed ++ accountBytes in
    let privateKey := hash (inr combined) in
    fromSeed privateKey.

(** The [for (let i = 0; i < count; i++)] loop of [mnemonicToKeyPairs],
    with [remaining] iterations to go. *)
Fixpoint keyPairs_loop (mnemonic passphrase : string) (remaining : nat)
    (i : Z) (keyPairs : list KeyPair) : result (list KeyPair) :=
  match remaining with
  | O => Ok keyPairs
  | S remaining' =>
      kp ← mnemonicToKeyPair mnemonic passphrase i;
      keyPairs_loop mnemonic passphrase remaining' (i + 1) (keyPairs ++ [kp])
  end.

(** [mnemonicToKeyPairs(mnemonic, count, passphrase = '')], for an
    integer [count]: the loop runs [count] times, not at all if [count <= 0]. *)
Definition mnemonicToKeyPairs
    (mnemonic : string) (count : Z) (passphrase : string)
    : result (list KeyPair) :=
  keyPairs_loop mnemonic passphrase (Z.to_nat count) 0 [].

(** ** [src/utils/format.ts]: addresses *)

(** [/^[0-9a-fA-F]*$/.test(cleanHex) && cleanHex.length % 2 === 0] *)
Definition isValidHex (hex : string) : bool :=
  let cleanHex := strip_0x (Js.units hex) in
  forallb (Js.is_digit 16) cleanHex && Nat.even (length cleanHex).

Definition isValidAddress (address : string) : bool :=
  if negb (isValidHex address) then false
  else
    let cleanHex := strip_0x (Js.units address) in
    (length cleanHex =? ADDRESS_LENGTH * 2)%nat.

Definition parseAddress (address : string) : result bytes :=
  if negb (isValidAddress address)
  then Throw (TesseraError InvalidAddress)
  else hexToBytes address.

(** ** [src/transaction/index.ts]: serialization *)

(** [encodeU64]: [view.setBigUint64(0, value, true)] stores the value
    modulo 2^64, least significant byte first. *)
Definition encodeU64 (value : Z) : bytes :=
  let u := value mod 2 ^ 64 in
  map (fun i => Js.to_uint8 (Z.shiftr u (8 * i))) [0; 1; 2; 3; 4; 5; 6; 7].

(** The parts pushed by both serializers before the signature. *)
Definition body_parts (tx : Transaction) : list bytes :=
  let parts := [] in
  (* tx_type (1 byte) *)
  let parts := parts ++ [[Js.to_uint8 (ordinal (txType tx))]] in
  (* chain_id (length-prefixed string) *)
  let chainIdBytes := utf8_encode (chainId tx) in
  let parts := parts ++ [encodeU64 (Z.of_nat (length chainIdBytes))] in
  let parts := parts ++ [chainIdBytes] in
  let parts := parts ++ [from tx] in
  let parts := parts ++ [to tx] in
  let parts := parts ++ [encodeU64 (amount tx)] in
  (* payload (Option<Vec<u8>>) *)
  let parts :=
    match payload tx with
    | None => parts ++ [[x00]]
    | Some p =>
        let parts := parts ++ [[x01]] in
        let parts := parts ++ [encodeU64 (Z.of_nat (length p))] in
        parts ++ [p]
    end in
  let parts := parts ++ [encodeU64 (nonce tx)] in
  parts ++ [encodeU64 (timestamp tx)].

(** [serializeForSigning]: the last part is [new Uint8Array(64)]; the
    result is the parts copied one after the other. *)
Definition serializeForSigning (tx : Transaction) : bytes :=
  let parts := body_parts tx ++ [repeat x00 64] in
  concat parts.

(** [serializeTransaction]: the last part is [tx.signature]. *)
Definition serializeTransaction (tx : Transaction) : bytes :=
  let parts := body_parts tx ++ [signature tx] in
  concat parts.

(** [Math.ceil(a / b)] for integers [a >= 0] and [b > 0] (the quotient of
    an array length by 1024 is exact in floating point). *)
Definition ceil_div (a b : Z) : Z := - ((- a) / b).

Definition calculateFee (tx : Transaction) : Z :=
  if bool_decide (txType tx = Stake) || bool_decide (txType tx = Unstake)
  then STAKING_FEE
  else if bool_decide (txType tx = SubmitProposal)
  then STAKING_FEE
  else
    let fee := BASE_FEE in
    match payload tx with
    | Some p =>
        (* a Uint8Array is truthy whatever its length *)
        let payloadKb := ceil_div (Z.of_nat (length p)) 1024 in
        fee + payloadKb * FEE_PER_KB_PAYLOAD
    | None => fee
    end.

Definition calculateHash (tx : Transaction) : string :=
  let serialized := serializeTransaction tx in
  bytesToHex (hash (inr serialized)).

(** ** JSON wire form *)

(** The [txTypeMap] of [transactionToJson], a table indexed by [TxType]. *)
Definition txTypeName (k : TxType) : string :=
  match k with
  | Transfer => "transfer"
  | Stake => "stake"
  | Unstake => "unstake"
  | SubmitProposal => "submit_proposal"
  | Vote => "vote"
  end.

Definition transactionToJson (tx : Transaction) : Wire.TransactionJson := {|
  Wire.tx_type := txTypeName (txType tx);
  Wire.chain_id := chainId tx;
  Wire.from := bytesToHex (from tx);
  Wire.to := bytesToHex (to tx);
  Wire.amount := Js.str (Js.bigint_toString (amount tx));
  (* tx.payload ? bytesToHex(tx.payload) : null; an array is truthy *)
  Wire.payload :=
    match payload tx with
    | Some p => Some (bytesToHex p)
    | None => None
    end;
  Wire.nonce := Js.str (Js.bigint_toString (nonce tx));
  Wire.timestamp := Js.str (Js.bigint_toString (timestamp tx));
  Wire.signature := bytesToHex (signature tx);
  Wire.hash := Some (calculateHash tx);
  Wire.fee := Some (Js.str (Js.bigint_toString (calculateFee tx)));
|}.

(** The [txTypeMap] of [jsonToTransaction] is an object literal with five
    own properties.  A property read on it, [txTypeMap[key]], also finds
    the properties every object literal inherits from [Object.prototype]. *)
Definition txTypeMap : gmap string TxType :=
  list_to_map
    [("transfer", Transfer); ("stake", Stake); ("unstake", Unstake);
     ("submit_proposal", SubmitProposal); ("vote", Vote)]%string.

Definition Object_prototype : list string :=
  ["constructor"; "__defineGetter__"; "__defineSetter__"; "hasOwnProperty";
   "__lookupGetter__"; "__lookupSetter__"; "isPrototypeOf";
   "propertyIsEnumerable"; "toString"; "valueOf"; "__proto__";
   "toLocaleString"]%string.

(** What a read of [txTypeMap[key]] delivers when it is not [undefined]:
    one of the five kinds, or the inherited member of that name (a
    function or, for [__proto__], the prototype object). *)
Inductive KindSlot :=
| OwnKind (k : TxType)
| Inherited (name : string).

Definition txTypeMap_get (key : string) : option KindSlot :=
  match txTypeMap !! key with
  | Some k => Some (OwnKind k)
  | None =>
      if bool_decide (key ∈ Object_prototype) then Some (Inherited key)
      else None
  end.

Definition jsonToTransaction (json : Wire.TransactionJson)
    : result (TransactionOf KindSlot) :=
  (* txTypeMap[json.tx_type] ?? TxType.Transfer *)
  let txType := default (OwnKind Transfer) (txTypeMap_get (Wire.tx_type json)) in
  let chainId := Wire.chain_id json in
  from ← hexToBytes (Wire.from json);
  to ← hexToBytes (Wire.to json);
  amount ← Js.BigInt (Js.units (Wire.amount json));
  (* json.payload ? hexToBytes(json.payload) : null; '' is falsy *)
  payload ←
    match Wire.payload json with
    | Some s =>
        if bool_decide (s = ""%string) then Ok None
        else p ← hexToBytes s; Ok (Some p)
    | None => Ok None
    end;
  nonce ← Js.BigInt (Js.units (Wire.nonce json));
  timestamp ← Js.BigInt (Js.units (Wire.timestamp json));
  signature ← hexToBytes (Wire.signature json);
  Ok (mkTransaction txType chainId from to amount payload nonce timestamp
        signature).

(** ** [class TransactionBuilder] *)

Record TransactionBuilder := {
  keyPair : KeyPair;
  defaultChainId : string;
}.

(** [normalizePayload]: [undefined] and the empty string are falsy; a
    [Uint8Array] never is. *)
Definition normalizePayload (payload : option (bytes + string)) : option bytes :=
  match payload with
  | None => None
  | Some (inr s) =>
      if bool_decide (s = ""%string) then None else Some (utf8_encode s)
  | Some (inl b) => Some b
  end.

Definition validatePayload (payload : option bytes) : result unit :=
  match payload with
  | Some p =>
      if (MAX_PAYLOAD_SIZE <? length p)%nat
      then Throw (TesseraError InvalidTransaction)
      else Ok tt
  | None => Ok tt
  end.

(** Every constructor takes [now], the value [getCurrentTimestamp()] has
    when it is called; it is read only if the options give no timestamp. *)
Section Builder.
Variable this : TransactionBuilder.
Variable now : Z.

Definition buildTransfer (options : TransferOptions) : result Transaction :=
  let payload := normalizePayload (transfer_payload options) in
  _ ← validatePayload payload;
  to ← parseAddress (transfer_to options);
  Ok {|
    txType := Transfer;
    chainId := default (defaultChainId this) (transfer_chainId options);
    from := publicKey (keyPair this);
    to := to;
    amount := transfer_amount options;
    payload := payload;
    nonce := transfer_nonce options;
    timestamp := default now (transfer_timestamp options);
    signature := repeat x00 64;
  |}.

Definition buildStake (options : StakeOptions) : Transaction := {|
  txType := Stake;
  chainId := default (defaultChainId this) (stake_chainId options);
  from := publicKey (keyPair this);
  to := publicKey (keyPair this);
  amount := stake_amount options;
  payload := None;
  nonce := stake_nonce options;
  timestamp := default now (stake_timestamp options);
  signature := repeat x00 64;
|}.

Definition buildUnstake (options : UnstakeOptions) : Transaction := {|
  txType := Unstake;
  chainId := default (defaultChainId this) (unstake_chainId options);
  from := publicKey (keyPair this);
  to := publicKey (keyPair this);
  amount := unstake_amount options;
  payload := None;
  nonce := unstake_nonce options;
  timestamp := default now (unstake_timestamp options);
  signature := repeat x00 64;
|}.

Definition buildSubmitProposal (options : SubmitProposalOptions)
    : result Transaction :=
  let proposalPayload := {|
    title := proposal_title options;
    description := proposal_description options;
    changes := proposal_changes options;
  |} in
  let payloadBytes := utf8_encode (stringify_proposal proposalPayload) in
  _ ← validatePayload (Some payloadBytes);
  Ok {|
    txType := SubmitProposal;
    chainId := default (defaultChainId this) (proposal_chainId options);
    from := publicKey (keyPair this);
    to := publicKey (keyPair this);
    amount := proposal_deposit options;
    payload := Some payloadBytes;
    nonce := proposal_nonce options;
    timestamp := default now (proposal_timestamp options);
    signature := repeat x00 64;
  |}.

Definition buildVote (options : VoteOptions) : Transaction :=
  let payloadBytes :=
    utf8_encode
      (stringify_vote (vote_proposalId options) (vote_option options)) in
  {|
    txType := Vote;
    chainId := default (defaultChainId this) (vote_chainId options);
    from := publicKey (keyPair this);
    to := publicKey (keyPair this);
    amount := 0;
    payload := Some payloadBytes;
    nonce := vote_nonce options;
    timestamp := default now (vote_timestamp options);
    signature := repeat x00 64;
  |}.

(** [sign]: the result is the object literal [{...tx, signature}]. *)
Definition sign (tx : Transaction) : Transaction :=
  let bytesToSign := serializeForSigning tx in
  let signature := KeyPair_sign (keyPair this) bytesToSign in
  {|
    txType := txType tx;
    chainId := chainId tx;
    from := from tx;
    to := to tx;
    amount := amount tx;
    payload := payload tx;
    nonce := nonce tx;
    timestamp := timestamp tx;
    signature := signature;
  |}.

(** [sign] on the object store.  Transaction objects live in a heap and
    are passed by reference; [sign] reads the object its argument
    refers to, allocates the object literal at a fresh reference and
    returns that reference.  It performs no write to an existing
    object.  ([None]: the argument refers to no transaction.) *)
Definition sign_ref (tx : positive) (heap : gmap positive Transaction)
    : option (positive * gmap positive Transaction) :=
  obj ← heap !! tx;
  let signed := fresh (dom heap) in
  Some (signed, <[signed := sign obj]> heap).

End Builder.

End Sdk.

(** ** Further functions of the same files *)

Definition TOKEN_SYMBOL : string := "TESS".

(** [formatAddress] of [src/utils/format.ts] *)
Definition formatAddress (address : bytes) : result string :=
  if negb (length address =? ADDRESS_LENGTH)%nat
  then Throw (TesseraError InvalidAddress)
  else Ok (bytesToHex address).

(** [shortenAddress(address, chars = 6)], for an integer [chars] *)
Definition shortenAddress (address : string) (chars : Z) : string :=
  let cleanAddress := strip_0x (Js.units address) in
  if Z.of_nat (length cleanAddress) <=? chars * 2
  then Js.str cleanAddress
  else Js.str (Js.slice cleanAddress 0 (Some chars)
               ++ Js.units "..."
               ++ Js.slice cleanAddress (- chars) None).

Definition formatAmountWithSymbol (baseUnits : Z) : string :=
  Js.str (Js.units (formatAmount baseUnits)
          ++ Js.units " " ++ Js.units TOKEN_SYMBOL).

Section SdkMore.
Context {ext : Externals}.

(** [src/crypto/hash.ts] *)
Definition doubleHash (data : string + bytes) : bytes :=
  hash (inr (hash data)).

(** [src/crypto/keys.ts] *)
Definition fromPrivateKeyHex (privateKeyHex : string) : result KeyPair :=
  privateKey ← hexToBytes privateKeyHex;
  fromPrivateKey privateKey.

Definition publicKeyHex (this : KeyPair) : string :=
  bytesToHex (_publicKey this).

Definition address (this : KeyPair) : string := publicKeyHex this.

Definition privateKeyHex (this : KeyPair) : string :=
  bytesToHex (privateKey this).

Definition signHex (this : KeyPair) (message : bytes) : string :=
  bytesToHex (KeyPair_sign this message).

(** [toJSON(): { publicKey, privateKey }] and [fromJSON(json)], which reads
    the [privateKey] field only. *)
Record KeyPairJson := {
  json_publicKey : string;
  json_privateKey : string;
}.

Definition KeyPair_toJSON (this : KeyPair) : KeyPairJson := {|
  json_publicKey := publicKeyHex this;
  json_privateKey := privateKeyHex this;
|}.

Definition KeyPair_fromJSON (json : KeyPairJson) : result KeyPair :=
  fromPrivateKeyHex (json_privateKey json).

(** [src/crypto/mnemonic.ts] *)
Definition mnemonicToSeed (mnemonic passphrase : string) : result bytes :=
  if negb (isValidMnemonic mnemonic)
  then Throw (TesseraError InvalidMnemonic)
  else Ok (mnemonicToSeedSync mnemonic passphrase).

(** [src/transaction/index.ts]: build and sign *)
Definition signTransfer (this : TransactionBuilder) (now : Z)
    (options : TransferOptions) : result Transaction :=
  tx ← buildTransfer this now options; Ok (sign this tx).

Definition signStake (this : TransactionBuilder) (now : Z)
    (options : StakeOptions) : Transaction :=
  sign this (buildStake this now options).

Definition signUnstake (this : TransactionBuilder) (now : Z)
    (options : UnstakeOptions) : Transaction :=
  sign this (buildUnstake this now options).

Definition signSubmitProposal (this : TransactionBuilder) (now : Z)
    (options : SubmitProposalOptions) : result Transaction :=
  tx ← buildSubmitProposal this now options; Ok (sign this tx).

Definition signVote (this : TransactionBuilder) (now : Z)
    (options : VoteOptions) : Transaction :=
  sign this (buildVote this now options).

(** ** [src/wallet/index.ts] and the client it holds

    [TesseraClient] of [src/client/index.ts], as the wallet constructs it:
    from an endpoint alone, with the default options. *)
Record TesseraClient := {
  endpoint : string;
  timeout : Z;
  headers : list (string * string);
}.

(** [new TesseraClient(endpoint)]: one "/" at the end of the endpoint is
    dropped. *)
Definition newTesseraClient (endpoint : string) : TesseraClient := {|
  endpoint :=
    match reverse (Js.units endpoint) with
    | c :: _ =>
        if Ascii.eqb c "/" then Js.str (Js.slice (Js.units endpoint) 0 (Some (-1)))
        else endpoint
    | [] => endpoint
    end;
  timeout := 30000;
  headers := [("Content-Type", "application/json")]%string;
|}.

(** [interface Account] *)
Record Account := {
  account_address : string;
  account_balance : Z;
  account_nonce : Z;
  account_exists : bool;
}.

Record WalletOptions := {
  options_client : option (TesseraClient + string);
  options_chainId : option string;
}.

Record Wallet := {
  wallet_keyPair : KeyPair;
  wallet_txBuilder : TransactionBuilder;
  wallet_client : option TesseraClient;
  wallet_chainId : string;
}.

(** The private constructor; the empty string as client is falsy. *)
Definition newWallet (keyPair : KeyPair) (options : WalletOptions) : Wallet :=
  let chainId := default ""%string (options_chainId options) in
  {|
    wallet_keyPair := keyPair;
    wallet_chainId := chainId;
    wallet_txBuilder := {| keyPair := keyPair; defaultChainId := chainId |};
    wallet_client :=
      match options_client options with
      | Some (inr s) =>
          if bool_decide (s = ""%string) then None else Some (newTesseraClient s)
      | Some (inl c) => Some c
      | None => None
      end;
  |}.

(** [Wallet.fromMnemonic(mnemonic, options)], with the [passphrase] and
    [accountIndex] of the options *)
Definition Wallet_fromMnemonic (mnemonic : string) (options : WalletOptions)
    (passphrase : option string) (accountIndex : option Z) : result Wallet :=
  if negb (isValidMnemonic mnemonic)
  then Throw (TesseraError InvalidMnemonic)
  else
    keyPair ← mnemonicToKeyPair mnemonic (default ""%string passphrase)
                (default 0 accountIndex);
    Ok (newWallet keyPair options).

Definition Wallet_fromPrivateKey (privateKeyHex : string)
    (options : WalletOptions) : result Wallet :=
  keyPair ← fromPrivateKeyHex privateKeyHex;
  Ok (newWallet keyPair options).

Definition Wallet_address (this : Wallet) : string :=
  address (wallet_keyPair this).

Definition isConnected (this : Wallet) : bool :=
  match wallet_client this with
  | Some _ => true
  | None => false
  end.

(** [connect(client)]; the wallet it returns is the wallet itself, with the
    client rebound. *)
Definition connect (this : Wallet) (client : TesseraClient + string) : Wallet := {|
  wallet_keyPair := wallet_keyPair this;
  wallet_txBuilder := wallet_txBuilder this;
  wallet_client :=
    Some match client with
         | inr s => newTesseraClient s
         | inl c => c
         end;
  wallet_chainId := wallet_chainId this;
|}.

Definition getClient (this : Wallet) : result TesseraClient :=
  match wallet_client this with
  | None => Throw (TesseraError NetworkError)
  | Some c => Ok c
  end.

(** The node is outside the program: [rpc client address] is what
    [client.getAccount(address)] settles to, a rejection being a [Throw]. *)
Section WalletCalls.
Variable rpc : TesseraClient -> string -> result Account.
Variable now : Z.

Definition Wallet_getAccount (this : Wallet) : result Account :=
  client ← getClient this;
  rpc client (Wallet_address this).

Definition Wallet_getNonce (this : Wallet) : result Z :=
  account ← Wallet_getAccount this;
  Ok (account_nonce account).

Definition Wallet_getBalance (this : Wallet) : result Z :=
  account ← Wallet_getAccount this;
  Ok (account_balance account).

Definition Wallet_getBalanceFormatted (this : Wallet) : result string :=
  balance ← Wallet_getBalance this;
  Ok (formatAmount balance).

(** [signTransfer(params)]: [amount] is [string | bigint], [payload] an
    optional string, [nonce] and [chainId] optional. *)
Record SignTransferParams := {
  params_to : string;
  params_amount : string + Z;
  params_payload : option string;
  params_nonce : option Z;
  params_chainId : option string;
}.

Definition Wallet_signTransfer (this : Wallet) (params : SignTransferParams)
    : result Wire.TransactionJson :=
  (* params.nonce ?? (await this.getNonce()) + 1n *)
  nonce ←
    match params_nonce params with
    | Some n => Ok n
    | None => n ← Wallet_getNonce this; Ok (n + 1)
    end;
  amount ←
    match params_amount params with
    | inl s => parseAmount s
    | inr b => Ok b
    end;
  tx ← signTransfer (wallet_txBuilder this) now {|
          transfer_to := params_to params;
          transfer_amount := amount;
          transfer_payload := inr <$> params_payload params;
          transfer_nonce := nonce;
          transfer_chainId :=
            Some (default (wallet_chainId this) (params_chainId params));
          transfer_timestamp := None;
        |};
  Ok (transactionToJson tx).

End WalletCalls.

End SdkMore.

(** ** Vocabulary of the statements *)

(** The characters "0".."9". *)
Definition dec_digit : ascii -> bool := Js.is_digit 10.

Definition is_hex : ascii -> bool := Js.is_digit 16.

Definition is_sign (c : ascii) : bool :=
  ((Js.code c =? 45) || (Js.code c =? 43))%N.

(** The two-character strings on which [parseInt(_, 16)] is [NaN]: "0x" and
    "0X", and the pairs that do not start with a hexadecimal digit, unless
    they are a white-space character or a sign followed by a hexadecimal
    digit. *)
Definition pair_is_NaN (a b : ascii) : bool :=
  ((Js.code a =? 48)%N && Js.is_x b)
  || (negb (is_hex a) && negb ((Js.is_ws a || is_sign a) && is_hex b)).

(** The six character tests [parseInt] makes, on each of the 256 characters. *)
Inductive char_class := CWs | CMinus | CPlus | CZero | CX | CHex | COther.

Definition classify (c : ascii) : char_class :=
  if Js.is_ws c then CWs
  else if (Js.code c =? 45)%N then CMinus
  else if (Js.code c =? 43)%N then CPlus
  else if (Js.code c =? 48)%N then CZero
  else if Js.is_x c then CX
  else if is_hex c then CHex
  else COther.

(** The pairs [hexToBytes] reads: the code units at [2 i] and [2 i + 1]. *)
Definition pair_at (l : list ascii) (i : nat) (a b : ascii) : Prop :=
  l !! (2 * i)%nat = Some a /\ l !! (2 * i + 1)%nat = Some b.

(** The rule "the call throws exactly when the stripped input has odd length
    or has a pair whose first character cannot begin a base-16 parse", for
    a given set [can_begin] of characters that can. *)
Definition first_char_rule (can_begin : ascii -> bool) : Prop :=
  forall hex : string,
    hexToBytes hex = Throw (TesseraError InvalidAddress) <->
    (Nat.odd (length (strip_0x (Js.units hex))) = true
     \/ exists i a b, pair_at (strip_0x (Js.units hex)) i a b
                      /\ can_begin a = false).

(** Strings made of decimal digits and at most [dots] decimal points. *)
Fixpoint digits_and_dots (dots : nat) (l : list ascii) : bool :=
  match l with
  | [] => true
  | c :: r =>
      if Ascii.eqb c "."
      then match dots with
           | O => false
           | S d => digits_and_dots d r
           end
      else dec_digit c && digits_and_dots dots r
  end.

(** A non-negative decimal amount: digits with at most one decimal point. *)
Definition decimal_amount (s : string) : bool :=
  digits_and_dots 1 (Js.units s).

(** The digits [parseAmount] is to read for an integer part [ip] and a
    fraction [dp]: the integer part, "0" if it is empty, followed by the
    first six digits of the fraction, filled up with zeros. *)
Definition base_unit_digits (ip dp : list ascii) : list ascii :=
  (match ip with [] => ["0"%char] | _ => ip end)
  ++ take 6 (dp ++ repeat "0"%char 6).

(** The number a byte sequence denotes, least significant byte first and
    most significant byte first. *)
Definition byte_value (b : byte) : Z := Z.of_N (Byte.to_N b).

Definition le_value (bs : bytes) : Z :=
  fold_right (fun b acc => byte_value b + 256 * acc) 0 bs.

Definition be_value (bs : bytes) : Z :=
  fold_left (fun acc b => 256 * acc + byte_value b) bs 0.

(** The key pair the derivation is to produce: the private key is the digest
    of the seed followed by the four index bytes, the public key is derived
    from it. *)
Definition derived_keyPair {ext : Externals}
    (mnemonic passphrase : string) (accountIndex : Z) : KeyPair :=
  let digest :=
    sha3_256 (mnemonicToSeedSync mnemonic passphrase
              ++ setUint32_be accountIndex) in
  mkKeyPair digest (ed_getPublicKey digest).

(** The payload byte length, 0 for an absent payload. *)
Definition payload_length (tx : Transaction) : Z :=
  match payload tx with
  | Some p => Z.of_nat (length p)
  | None => 0
  end.

(** A wire transaction with the given [tx_type], zero addresses and a zero
    signature. *)
Definition wire_of_kind (name : string) : Wire.TransactionJson := {|
  Wire.tx_type := name;
  Wire.chain_id := "tessera-local";
  Wire.from := bytesToHex (repeat x00 32);
  Wire.to := bytesToHex (repeat x00 32);
  Wire.amount := "1000000";
  Wire.payload := None;
  Wire.nonce := "1";
  Wire.timestamp := "1699876543";
  Wire.signature := bytesToHex (repeat x00 64);
  Wire.hash := None;
  Wire.fee := None;
|}.

(** Sample values for the instances at the end. *)
Definition sample_keyPair : KeyPair :=
  mkKeyPair (repeat x01 32) (repeat x02 32).

Definition sample_builder : TransactionBuilder :=
  {| keyPair := sample_keyPair; defaultChainId := "tessera-local" |}.

Definition sample_transfer : Transaction :=
  mkTransaction Transfer "tessera-local" (repeat x02 32) (repeat x03 32)
    1000000 (Some (repeat x61 1024)) 1 1699876543 (repeat x00 64).

Definition sample_proposal : SubmitProposalOptions := {|
  proposal_title := "Raise the validator cap";
  proposal_description := "max_validators to 150";
  proposal_changes := [("max_validators"%string, inl 150)];
  proposal_deposit := 10000000000000;
  proposal_nonce := 1;
  proposal_chainId := None;
  proposal_timestamp := Some 1699876543;
|}.

(** A record as the data model describes it: addresses of 32 bytes and
    unsigned 64-bit numbers, the byte counts included. *)
Definition well_formed {ext : Externals} (tx : Transaction) : Prop :=
  length (from tx) = 32%nat /\ length (to tx) = 32%nat
  /\ 0 <= amount tx < 2 ^ 64 /\ 0 <= nonce tx < 2 ^ 64
  /\ 0 <= timestamp tx < 2 ^ 64
  /\ Z.of_nat (length (utf8_encode (chainId tx))) < 2 ^ 64
  /\ payload_length tx < 2 ^ 64.

(** The characters "0".."9" and "a".."f", the digits [bytesToHex] writes. *)
Definition lower_hex (c : ascii) : bool :=
  let n := Js.code c in
  ((48 <=? n) && (n <=? 57) || (97 <=? n) && (n <=? 102))%N.

Definition sample_address : string := bytesToHex (repeat x03 32).

Definition sample_transfer_options : TransferOptions := {|
  transfer_to := sample_address;
  transfer_amount := 1000000;
  transfer_payload := Some (inr "memo"%string);
  transfer_nonce := 1;
  transfer_chainId := None;
  transfer_timestamp := None;
|}.

Definition sample_stake : Transaction :=
  mkTransaction Stake "tessera-local" (repeat x02 32) (repeat x02 32)
    100000000000 None 2 1699876543 (repeat x00 64).

Definition sample_wallet : Wallet :=
  newWallet sample_keyPair
    {| options_client := None; options_chainId := Some "tessera-local"%string |}.

Definition sample_params : SignTransferParams := {|
  params_to := sample_address;
  params_amount := inl "1.5"%string;
  params_payload := None;
  params_nonce := None;
  params_chainId := None;
|}.

Definition sample_account : Account := {|
  account_address := bytesToHex (repeat x02 32);
  account_balance := 5000000;
  account_nonce := 41;
  account_exists := true;
|}.

(** * Properties *)

Ltac div_lia := zify; Z.to_euclidean_division_equations; lia.

(** ** Strings, digits and numbers *)

Lemma units_str (l : list ascii) : Js.units (Js.str l) = l.
Proof. apply list_ascii_of_string_of_list_ascii. Qed.

Lemma str_units (s : string) : Js.str (Js.units s) = s.
Proof. apply string_of_list_ascii_of_string. Qed.

Lemma str_nil_inv (l : list ascii) : Js.str l = ""%string -> l = [].
Proof. by destruct l. Qed.

Lemma digit_val_digit_char (d : N) :
  (d < 10)%N -> Js.digit_val (Js.digit_char d) = Some d.
Proof.
  intros Hd.
  assert (Hcases : In d [0; 1; 2; 3; 4; 5; 6; 7; 8; 9]%N).
  { simpl. lia. }
  simpl in Hcases.
  repeat (destruct Hcases as [<- | Hcases]; [reflexivity |]).
  destruct Hcases.
Qed.

Lemma dec_digit_digit_char (d : N) : (d < 10)%N -> dec_digit (Js.digit_char d) = true.
Proof.
  intros Hd. unfold dec_digit, Js.is_digit.
  rewrite digit_val_digit_char by done. by apply N.ltb_lt.
Qed.

Lemma size_nat_div2 (n : N) : N.size_nat (N.div2 n) = pred (N.size_nat n).
Proof. by destruct n as [|[p|p|]]. Qed.

Lemma size_nat_mono (a b : N) : (a <= b)%N -> (N.size_nat a <= N.size_nat b)%nat.
Proof.
  destruct a as [|p], b as [|q]; simpl; try lia.
  intros H. destruct (decide (p = q)) as [->|Hne]; [done|].
  apply Pos.size_nat_monotone. lia.
Qed.

Lemma size_nat_div10 (n : N) (fuel : nat) :
  (N.size_nat n <= S fuel)%nat -> (N.size_nat (n / 10) <= fuel)%nat.
Proof.
  intros H.
  assert (Hle : (n / 10 <= N.div2 n)%N).
  { rewrite N.div2_div. div_lia. }
  apply size_nat_mono in Hle. rewrite size_nat_div2 in Hle. lia.
Qed.

Lemma decimal_go_value (fuel : nat) : forall (n : N) (acc : list ascii),
  (N.size_nat n <= fuel)%nat ->
  fold_left (Js.digit_step 10) (Js.decimal_go fuel n acc) 0%N
  = fold_left (Js.digit_step 10) acc n.
Proof.
  induction fuel as [|fuel IH]; intros n acc Hsize.
  - destruct n; [|simpl in Hsize; destruct p; simpl in Hsize; lia]. reflexivity.
  - cbn [Js.decimal_go]. 
    assert (Hmod : (n mod 10 < 10)%N) by (apply N.mod_lt; lia).
    destruct (N.eqb_spec (n / 10) 0) as [H0|Hn0].
    + cbn [fold_left]. unfold Js.digit_step at 2. rewrite digit_val_digit_char by done.
      f_equal. simpl. div_lia.
    + rewrite IH by (by apply size_nat_div10).
      cbn [fold_left]. unfold Js.digit_step at 2. rewrite digit_val_digit_char by done.
      f_equal. simpl. div_lia.
Qed.

Lemma decimal_value (n : N) : Js.radix_value 10 (Js.decimal n) = n.
Proof.
  unfold Js.radix_value, Js.decimal. by rewrite decimal_go_value.
Qed.

Lemma decimal_go_digits (fuel : nat) : forall (n : N) (acc : list ascii),
  forallb dec_digit acc = true ->
  forallb dec_digit (Js.decimal_go fuel n acc) = true.
Proof.
  induction fuel as [|fuel IH]; intros n acc Hacc;
    assert (Hmod : (n mod 10 < 10)%N) by (apply N.mod_lt; lia).
  - simpl. by rewrite dec_digit_digit_char.
  - cbn [Js.decimal_go]. destruct (n / 10 =? 0)%N.
    + simpl. by rewrite dec_digit_digit_char.
    + apply IH. simpl. by rewrite dec_digit_digit_char.
Qed.

Lemma decimal_digits (n : N) : forallb dec_digit (Js.decimal n) = true.
Proof. by apply decimal_go_digits. Qed.

Lemma decimal_go_nonempty (fuel : nat) : forall (n : N) (acc : list ascii),
  Js.decimal_go fuel n acc <> [].
Proof.
  induction fuel as [|fuel IH]; intros n acc; [done|].
  cbn [Js.decimal_go]. destruct (n / 10 =? 0)%N; [done | apply IH].
Qed.

Lemma decimal_nonempty (n : N) : Js.decimal n <> [].
Proof. apply decimal_go_nonempty. Qed.

Lemma dec_digit_code (c : ascii) :
  dec_digit c = true <-> (48 <= Js.code c <= 57)%N.
Proof.
  unfold dec_digit, Js.is_digit, Js.digit_val.
  generalize (Js.code c) as n; intros n.
  destruct (N.leb_spec 48 n), (N.leb_spec n 57), (N.leb_spec 97 n),
    (N.leb_spec n 122), (N.leb_spec 65 n), (N.leb_spec n 90);
    simpl; rewrite ?N.ltb_lt; split; first [lia | discriminate | intros; lia].
Qed.

Lemma dec_digit_not_ws (c : ascii) : dec_digit c = true -> Js.is_ws c = false.
Proof.
  rewrite dec_digit_code. unfold Js.is_ws. intros H.
  repeat (apply orb_false_intro); rewrite ?andb_false_iff, ?N.leb_gt, ?N.eqb_neq; lia.
Qed.

Lemma skip_ws_digits (l : list ascii) :
  forallb dec_digit l = true -> Js.skip_ws l = l.
Proof.
  destruct l as [|c r]; [done|]. simpl. intros [Hc _]%andb_true_iff.
  by rewrite dec_digit_not_ws.
Qed.

Lemma trim_end_digits (l : list ascii) :
  forallb dec_digit l = true -> Js.trim_end l = l.
Proof.
  induction l as [|c r IH]; [done|]. simpl. intros [Hc Hr]%andb_true_iff.
  rewrite IH by done. destruct r; [|done]. by rewrite dec_digit_not_ws.
Qed.

Lemma digits_in_10 (l : list ascii) :
  l <> [] -> forallb dec_digit l = true ->
  Js.digits_in 10 l = Some (Z.of_N (Js.radix_value 10 l)).
Proof.
  intros Hne Hd. unfold Js.digits_in. destruct l; [done|].
  unfold dec_digit in Hd. by rewrite Hd.
Qed.

(** [BigInt] of a non-empty string of decimal digits is its value. *)
Lemma StringToBigInt_digits (l : list ascii) :
  l <> [] -> forallb dec_digit l = true ->
  Js.StringToBigInt l = Some (Z.of_N (Js.radix_value 10 l)).
Proof.
  intros Hne Hd. unfold Js.StringToBigInt.
  rewrite skip_ws_digits, trim_end_digits by done.
  destruct l as [|c r]; [done|].
  pose proof Hd as [Hc Hr]%andb_true_iff. apply dec_digit_code in Hc.
  destruct (N.eqb_spec (Js.code c) 45); [lia|].
  destruct (N.eqb_spec (Js.code c) 43); [lia|].
  destruct r as [|p r']; [by apply digits_in_10|].
  simpl in Hr. apply andb_true_iff in Hr as [Hp _]. apply dec_digit_code in Hp.
  unfold Js.is_x.
  destruct (N.eqb_spec (Js.code p) 120); [lia|].
  destruct (N.eqb_spec (Js.code p) 88); [lia|].
  destruct (N.eqb_spec (Js.code p) 111); [lia|].
  destruct (N.eqb_spec (Js.code p) 79); [lia|].
  destruct (N.eqb_spec (Js.code p) 98); [lia|].
  destruct (N.eqb_spec (Js.code p) 66); [lia|].
  rewrite !andb_false_r. by apply digits_in_10.
Qed.

Lemma StringToBigInt_toString (z : Z) :
  Js.StringToBigInt (Js.bigint_toString z) = Some z.
Proof.
  unfold Js.bigint_toString. destruct (Z.ltb_spec z 0) as [Hneg|Hpos].
  - unfold Js.StringToBigInt.
    assert (Hd := decimal_digits (Z.abs_N z)).
    assert (Hne := decimal_nonempty (Z.abs_N z)).
    cbn [Js.skip_ws]. change (Js.is_ws (ascii_of_N 45)) with false. cbv iota.
    cbn [Js.trim_end]. rewrite trim_end_digits by done.
    destruct (Js.decimal (Z.abs_N z)) eqn:E; [done|].
    change (Js.code (ascii_of_N 45) =? 45)%N with true. cbv iota.
    rewrite digits_in_10 by done. rewrite <- E, decimal_value. simpl. f_equal. lia.
  - rewrite StringToBigInt_digits
      by (apply decimal_nonempty || apply decimal_digits).
    rewrite decimal_value. f_equal. lia.
Qed.

Lemma BigInt_toString (z : Z) :
  Js.BigInt (Js.units (Js.str (Js.bigint_toString z))) = Ok z.
Proof. unfold Js.BigInt. by rewrite units_str, StringToBigInt_toString. Qed.

(** ** Hexadecimal encoding *)

Lemma hex_pairs_hex_pair (b : byte) (l : list ascii) :
  hex_pairs (hex_pair b ++ l) = rest ← hex_pairs l; Ok (b :: rest).
Proof. destruct b; reflexivity. Qed.

Lemma strip_0x_hex_pair (b : byte) (l : list ascii) :
  strip_0x (hex_pair b ++ l) = hex_pair b ++ l.
Proof. destruct b; reflexivity. Qed.

Lemma hex_pair_length (b : byte) : length (hex_pair b) = 2%nat.
Proof. destruct b; reflexivity. Qed.

Lemma hex_pairs_concat (bs : bytes) :
  hex_pairs (concat (map hex_pair bs)) = Ok bs.
Proof.
  induction bs as [|b bs IH]; [done|].
  cbn [map concat]. by rewrite hex_pairs_hex_pair, IH.
Qed.

Lemma hex_concat_length (bs : bytes) :
  length (concat (map hex_pair bs)) = (2 * length bs)%nat.
Proof.
  induction bs as [|b bs IH]; [done|].
  cbn [map concat]. rewrite length_app, hex_pair_length, IH. simpl. lia.
Qed.

Lemma strip_0x_concat (bs : bytes) :
  strip_0x (concat (map hex_pair bs)) = concat (map hex_pair bs).
Proof. destruct bs as [|b bs]; [done|]. apply strip_0x_hex_pair. Qed.

(** Decoding the hexadecimal form of a byte sequence gives it back. *)
Lemma hexToBytes_bytesToHex (bs : bytes) : hexToBytes (bytesToHex bs) = Ok bs.
Proof.
  unfold hexToBytes, bytesToHex.
  rewrite units_str, strip_0x_concat, hex_concat_length.
  rewrite Nat.even_mul. simpl. apply hex_pairs_concat.
Qed.

Lemma bytesToHex_nil_inv (bs : bytes) : bytesToHex bs = ""%string -> bs = [].
Proof.
  intros H%str_nil_inv. apply (f_equal length) in H.
  rewrite hex_concat_length in H. destruct bs; [done | simpl in H; lia].
Qed.

Lemma classify_spec (c : ascii) :
  Js.is_ws c = match classify c with CWs => true | _ => false end
  /\ (Js.code c =? 45)%N = match classify c with CMinus => true | _ => false end
  /\ (Js.code c =? 43)%N = match classify c with CPlus => true | _ => false end
  /\ (Js.code c =? 48)%N = match classify c with CZero => true | _ => false end
  /\ Js.is_x c = match classify c with CX => true | _ => false end
  /\ Js.is_digit 16 c = match classify c with CZero | CHex => true | _ => false end.
Proof.
  destruct c as [[] [] [] [] [] [] [] []]; vm_compute; repeat split.
Qed.

Lemma parseInt16_pair (a b : ascii) :
  Js.parseInt16 [a; b] = None <-> pair_is_NaN a b = true.
Proof.
  unfold Js.parseInt16, pair_is_NaN, is_sign, is_hex. cbn [Js.skip_ws Js.digit_prefix].
  destruct (classify_spec a) as (A1 & A2 & A3 & A4 & A5 & A6).
  destruct (classify_spec b) as (B1 & B2 & B3 & B4 & B5 & B6).
  destruct (classify a), (classify b); cbn in *;
    repeat (progress
      (rewrite ?A1, ?A2, ?A3, ?A4, ?A5, ?A6, ?B1, ?B2, ?B3, ?B4, ?B5, ?B6; cbn));
    split; congruence.
Qed.

Lemma pair_at_cons2 (a b : ascii) (r : list ascii) (i : nat) (x y : ascii) :
  pair_at (a :: b :: r) (S i) x y <-> pair_at r i x y.
Proof.
  unfold pair_at. replace (2 * S i)%nat with (S (S (2 * i))) by lia.
  replace (S (S (2 * i)) + 1)%nat with (S (S (2 * i + 1))) by lia.
  reflexivity.
Qed.

Lemma hex_pairs_throw (l : list ascii) :
  Nat.even (length l) = true ->
  (hex_pairs l = Throw (TesseraError InvalidAddress) <->
   exists i a b, pair_at l i a b /\ pair_is_NaN a b = true)
  /\ (forall e, hex_pairs l = Throw e -> e = TesseraError InvalidAddress).
Proof.
  induction l as [l IH] using (induction_ltof1 _ (@length ascii)).
  destruct l as [|a [|b r]]; [| discriminate |]; intros Heven.
  - split; [|discriminate]. split; [discriminate|].
    intros (i & a & b & [H _] & _). by rewrite lookup_nil in H.
  - cbn [hex_pairs].
    destruct (IH r) as [IHiff IHexn]; [unfold ltof; simpl; lia | done |].
    destruct (Js.parseInt16 [a; b]) as [v|] eqn:Hp.
    + assert (Hab : pair_is_NaN a b <> true).
      { rewrite <- parseInt16_pair. congruence. }
      destruct (hex_pairs r) as [bs|e] eqn:Hr; cbn.
      * split; [|discriminate]. split; [discriminate|].
        intros ([|i] & x & y & Hat & Hnan).
        -- destruct Hat as [? ?]. by simplify_eq/=.
        -- apply pair_at_cons2 in Hat.
           assert (Ok bs = Throw (TesseraError InvalidAddress)); [|done].
           apply IHiff. eauto.
      * split.
        -- split.
           ++ intros [= ->]. destruct IHiff as [(i & x & y & Hat & Hnan) _]; [done|].
              exists (S i), x, y. by rewrite pair_at_cons2.
           ++ intros _. f_equal. by apply IHexn.
        -- intros e' [= <-]. by apply IHexn.
    + split; [|by intros e [= <-]]. split; [|done]. intros _.
      exists 0%nat, a, b. split; [done|]. by apply parseInt16_pair.
Qed.

Example hexToBytes_test : hexToBytes "0x00ff12ab" = Ok [x00; xff; x12; xab].
Proof. reflexivity. Qed.

Example hexToBytes_4z : hexToBytes "4z" = Ok [x04].
Proof. reflexivity. Qed.

Example hexToBytes_space_digit : hexToBytes " 4" = Ok [x04].
Proof. reflexivity. Qed.

Example hexToBytes_minus_digit : hexToBytes "-f" = Ok [xf1].
Proof. reflexivity. Qed.

Example hexToBytes_0x_pair :
  hexToBytes "0x0x" = Throw (TesseraError InvalidAddress)
  /\ hexToBytes "000x" = Throw (TesseraError InvalidAddress)
  /\ hexToBytes "0z" = Ok [x00].
Proof. repeat split. Qed.

(** C9, as stated, does not hold: whatever set of characters is taken to be
    those that "can begin a base-16 parse", the rule "throws exactly when the
    stripped input has odd length or some pair's first character cannot" is
    violated.  The pairs "0x" and "0z" have the same first character; the
    first throws and the second decodes to the byte 0.  (With the
    hexadecimal digits as that set, the rule also fails on " 4", which
    decodes to the byte 4.) *)
Lemma hexToBytes_first_char_rule_fails :
  hexToBytes "0x0x" = Throw (TesseraError InvalidAddress)
  /\ hexToBytes "0z" = Ok [x00]
  /\ hexToBytes " 4" = Ok [x04]
  /\ ~ first_char_rule is_hex
  /\ ~ exists can_begin : ascii -> bool, first_char_rule can_begin.
Proof.
  split; [reflexivity|]. split; [reflexivity|]. split; [reflexivity|].
  assert (Hnone : ~ exists can_begin : ascii -> bool, first_char_rule can_begin).
  { intros [can_begin Hrule].
    destruct (Hrule "0x0x"%string) as [Hthrow _].
    destruct (Hrule "0z"%string) as [_ Hok].
    destruct Hthrow as [Hodd | (i & a & b & [Ha Hb] & Hcan)];
      [reflexivity | discriminate Hodd |].
    assert (a = "0"%char) as ->.
    { destruct i as [|i]; [cbn in Ha; congruence|].
      replace (2 * S i)%nat with (S (S (2 * i))) in Ha by lia.
      cbn in Ha. by destruct (i + (i + 0))%nat. }
    enough (hexToBytes "0z" = Throw (TesseraError InvalidAddress)) by discriminate.
    apply Hok. right. exists 0%nat, "0"%char, "z"%char. by repeat split. }
  split; [|exact Hnone]. intros Hrule. apply Hnone. by exists is_hex.
Qed.

(** C9 (amended): [hexToBytes] throws [InvalidAddress], and nothing else,
    exactly when the input, after an optional leading "0x" is removed, has
    odd length or contains a two-character pair on which [parseInt(pair, 16)]
    is [NaN]: the pair is "0x" or "0X", or it does not start with a
    hexadecimal digit and is not a white-space character or a sign followed
    by a hexadecimal digit.  On "4z" it returns the one byte 4. *)
Theorem hexToBytes_throws_iff (hex : string) :
  (hexToBytes hex = Throw (TesseraError InvalidAddress) <->
   (Nat.odd (length (strip_0x (Js.units hex))) = true
    \/ exists i a b, pair_at (strip_0x (Js.units hex)) i a b
                     /\ pair_is_NaN a b = true))
  /\ (forall e, hexToBytes hex = Throw e -> e = TesseraError InvalidAddress)
  /\ hexToBytes "4z" = Ok [x04].
Proof.
  unfold hexToBytes. rewrite <- Nat.negb_odd.
  destruct (Nat.odd (length (strip_0x (Js.units hex)))) eqn:Hodd; cbn.
  - split; [|split]; [tauto | by intros e [= <-] | reflexivity].
  - assert (Heven : Nat.even (length (strip_0x (Js.units hex))) = true).
    { by rewrite <- Nat.negb_odd, Hodd. }
    destruct (hex_pairs_throw _ Heven) as [Hiff Hexn].
    split; [|split]; [|done|reflexivity].
    rewrite Hiff. split; [tauto|]. by intros [|].
Qed.

Section Properties.
Context {ext : Externals}.

(** ** JSON wire form *)

Ltac wire_simpl :=
  cbn [Wire.tx_type Wire.chain_id Wire.from Wire.to Wire.amount Wire.payload
       Wire.nonce Wire.timestamp Wire.signature mbind result_bind default].

Lemma txTypeMap_get_name (k : TxType) :
  txTypeMap_get (txTypeName k) = Some (OwnKind k).
Proof. by destruct k. Qed.

(** What [jsonToTransaction (transactionToJson tx)] is, for every record:
    all fields come back, except that a present payload of length zero
    comes back absent. *)
Lemma jsonToTransaction_transactionToJson (tx : Transaction) :
  jsonToTransaction (transactionToJson tx)
  = Ok (mkTransaction (OwnKind (txType tx)) (chainId tx) (from tx) (to tx)
          (amount tx)
          (match payload tx with
           | Some [] => None
           | p => p
           end)
          (nonce tx) (timestamp tx) (signature tx)).
Proof.
  unfold jsonToTransaction, transactionToJson. wire_simpl.
  rewrite txTypeMap_get_name, !hexToBytes_bytesToHex, !BigInt_toString.
  wire_simpl.
  destruct (payload tx) as [p|]; [|done].
  case_bool_decide as Hp.
  - by apply bytesToHex_nil_inv in Hp as ->.
  - rewrite hexToBytes_bytesToHex. wire_simpl. by destruct p.
Qed.

(** C2: the round trip through the wire form loses a present payload of
    length zero.  Whatever the other fields are, a record whose payload is
    the empty byte sequence comes back with an absent payload. *)
Theorem json_roundtrip_drops_empty_payload
    (k : TxType) (c : string) (f t : bytes) (a n ts : Z) (sig : bytes) :
  jsonToTransaction
    (transactionToJson (mkTransaction k c f t a (Some []) n ts sig))
  = Ok (mkTransaction (OwnKind k) c f t a None n ts sig).
Proof. by rewrite jsonToTransaction_transactionToJson. Qed.

(** The same two records are not signed over the same bytes. *)
Lemma empty_payload_changes_signed_bytes
    (k : TxType) (c : string) (f t : bytes) (a n ts : Z) (sig : bytes) :
  serializeForSigning (mkTransaction k c f t a (Some []) n ts sig)
  <> serializeForSigning (mkTransaction k c f t a None n ts sig).
Proof.
  unfold serializeForSigning, body_parts. cbn -[encodeU64 repeat].
  intros H.
  repeat (apply app_inv_head in H || injection H as H).
  discriminate.
Qed.

(** The kind of a decoded record is what the table read delivers, and
    [Transfer] when it delivers [undefined]. *)
Lemma jsonToTransaction_kind (json : Wire.TransactionJson) tx :
  jsonToTransaction json = Ok tx ->
  txType tx = default (OwnKind Transfer) (txTypeMap_get (Wire.tx_type json)).
Proof.
  unfold jsonToTransaction. intros H.
  repeat match type of H with
         | mbind _ ?r = _ => destruct r; cbn in H; [|discriminate]
         | _ ≫= _ = _ => destruct r; cbn in H; [|discriminate]
         end.
  by injection H as <-.
Qed.

Lemma txTypeMap_lookup (key : string) (k : TxType) :
  txTypeMap !! key = Some k <-> key = txTypeName k.
Proof.
  unfold txTypeMap. cbn [list_to_map foldr uncurry fst snd].
  rewrite !lookup_insert_Some, lookup_empty.
  destruct k; cbn; intuition (subst; congruence).
Qed.

(** The fallback as the source intends it: a [tx_type] that is none of the
    five names, and not the name of an inherited member, decodes to
    [Transfer]. *)
Lemma jsonToTransaction_fallback (json : Wire.TransactionJson) tx :
  jsonToTransaction json = Ok tx ->
  (forall k, Wire.tx_type json <> txTypeName k) ->
  Wire.tx_type json ∉ Object_prototype ->
  txType tx = OwnKind Transfer.
Proof.
  intros Hok Hnot Hproto. rewrite (jsonToTransaction_kind _ _ Hok).
  unfold txTypeMap_get.
  destruct (txTypeMap !! Wire.tx_type json) as [k|] eqn:Hk.
  - apply txTypeMap_lookup in Hk. by destruct (Hnot k).
  - by rewrite bool_decide_eq_false_2.
Qed.

(** [Transfer] comes only from the literal "transfer" or from a name that
    is not an own property of the table. *)
Lemma jsonToTransaction_Transfer_inv (json : Wire.TransactionJson) tx :
  jsonToTransaction json = Ok tx ->
  txType tx = OwnKind Transfer ->
  Wire.tx_type json = "transfer"%string
  \/ (forall k, Wire.tx_type json <> txTypeName k).
Proof.
  intros Hok. rewrite (jsonToTransaction_kind _ _ Hok).
  unfold txTypeMap_get.
  destruct (txTypeMap !! Wire.tx_type json) as [k|] eqn:Hk.
  - apply txTypeMap_lookup in Hk. intros [= ->]. by left.
  - intros _. right. intros k Hname. apply txTypeMap_lookup in Hname. congruence.
Qed.

(** C6: a [tx_type] that is the name of a member every object inherits
    from [Object.prototype] is none of the five names, and it does not
    decode to [Transfer]: the table read finds the inherited member, the
    [??] fallback is not taken, and the [txType] field of the result is
    that member. *)
Theorem jsonToTransaction_inherited_name :
  jsonToTransaction (wire_of_kind "constructor")
  = Ok (mkTransaction (Inherited "constructor") "tessera-local"
          (repeat x00 32) (repeat x00 32) 1000000 None 1 1699876543
          (repeat x00 64))
  /\ (forall name tx,
        name ∈ Object_prototype ->
        jsonToTransaction (wire_of_kind name) = Ok tx ->
        txType tx = Inherited name /\ txType tx <> OwnKind Transfer).
Proof.
  split; [by vm_compute|].
  intros name tx Hname Hok. rewrite (jsonToTransaction_kind _ _ Hok).
  cbn [wire_of_kind Wire.tx_type].
  unfold Object_prototype in Hname.
  repeat (apply elem_of_cons in Hname as [-> | Hname]; [by vm_compute|]).
  by apply elem_of_nil in Hname.
Qed.

(** ** Canonical encoding *)

Lemma to_uint8_value (z : Z) : byte_value (Js.to_uint8 z) = z mod 256.
Proof.
  unfold Js.to_uint8, byte_value.
  assert (Hb : 0 <= z mod 256 < 256) by (apply Z.mod_pos_bound; lia).
  destruct (Byte.of_N (Z.to_N (z mod 256))) as [b|] eqn:E; cbn.
  - apply Byte.to_of_N in E. rewrite E. lia.
  - apply Byte.of_N_None_iff in E. lia.
Qed.

Lemma encodeU64_length (v : Z) : length (encodeU64 v) = 8%nat.
Proof. reflexivity. Qed.

Lemma encodeU64_value (v : Z) : le_value (encodeU64 v) = v mod 2 ^ 64.
Proof.
  unfold encodeU64. cbn [map le_value fold_right].
  rewrite !to_uint8_value, !Z.shiftr_div_pow2 by lia.
  assert (Hu : 0 <= v mod 2 ^ 64 < 2 ^ 64) by (apply Z.mod_pos_bound; lia).
  generalize dependent (v mod 2 ^ 64). intros u Hu.
  change (2 ^ (8 * 0)) with 1. change (2 ^ (8 * 1)) with 256.
  change (2 ^ (8 * 2)) with 65536. change (2 ^ (8 * 3)) with 16777216.
  change (2 ^ (8 * 4)) with 4294967296.
  change (2 ^ (8 * 5)) with 1099511627776.
  change (2 ^ (8 * 6)) with 281474976710656.
  change (2 ^ (8 * 7)) with 72057594037927936.
  change (2 ^ 64) with 18446744073709551616 in Hu.
  Z.to_euclidean_division_equations. lia.
Qed.

Lemma ordinal_byte (k : TxType) : byte_value (Js.to_uint8 (ordinal k)) = ordinal k.
Proof. by destruct k. Qed.

(** C1: the bytes [serializeForSigning] produces are, in this order: the
    kind ordinal in one byte; the byte count of the UTF-8 chain id in eight
    bytes, little-endian, and those bytes; the [from] bytes; the [to]
    bytes; the amount in eight bytes, little-endian; the payload
    discriminant 0, or 1 followed by the payload length in eight bytes,
    little-endian, and the payload; the nonce and the timestamp, eight
    bytes each, little-endian; 64 zero bytes.  The signature of the record
    has no influence.  (An eight-byte little-endian field holds its value
    modulo 2^64, so a value below 2^64 exactly.) *)
Theorem serializeForSigning_layout (tx : Transaction) :
  serializeForSigning tx
  = [Js.to_uint8 (ordinal (txType tx))]
    ++ encodeU64 (Z.of_nat (length (utf8_encode (chainId tx))))
    ++ utf8_encode (chainId tx)
    ++ from tx
    ++ to tx
    ++ encodeU64 (amount tx)
    ++ match payload tx with
       | None => [x00]
       | Some p => [x01] ++ encodeU64 (Z.of_nat (length p)) ++ p
       end
    ++ encodeU64 (nonce tx)
    ++ encodeU64 (timestamp tx)
    ++ repeat x00 64
  /\ byte_value (Js.to_uint8 (ordinal (txType tx))) = ordinal (txType tx)
  /\ (forall v : Z,
        length (encodeU64 v) = 8%nat /\ le_value (encodeU64 v) = v mod 2 ^ 64)
  /\ (forall sig : bytes,
        serializeForSigning
          (mkTransaction (txType tx) (chainId tx) (from tx) (to tx)
             (amount tx) (payload tx) (nonce tx) (timestamp tx) sig)
        = serializeForSigning tx).
Proof.
  split; [|split; [apply ordinal_byte|split]].
  - unfold serializeForSigning, body_parts.
    destruct (payload tx) as [p|]; cbn -[encodeU64 repeat];
      by rewrite ?app_nil_r, <- ?app_assoc.
  - intros v. split; [apply encodeU64_length | apply encodeU64_value].
  - reflexivity.
Qed.

(** ** Fees *)

Lemma ceil_div_1024 (n : Z) :
  1024 * (ceil_div n 1024 - 1) < n <= 1024 * ceil_div n 1024.
Proof. unfold ceil_div. Z.to_euclidean_division_equations. lia. Qed.

(** C4: [calculateFee] is the staking fee for [Stake], [Unstake] and
    [SubmitProposal], whatever the amount and the payload; for the other
    kinds it is the base fee plus the per-kilobyte fee times the payload
    length divided by 1024 and rounded up, an absent payload counting as
    length 0.  A transfer without payload pays the base fee, a transfer
    with a payload of 1024 bytes the base fee plus one per-kilobyte fee. *)
Theorem calculateFee_spec (tx : Transaction) :
  (exists kb : Z,
      1024 * (kb - 1) < payload_length tx <= 1024 * kb
      /\ calculateFee tx
         = match txType tx with
           | Stake | Unstake | SubmitProposal => STAKING_FEE
           | Transfer | Vote => BASE_FEE + kb * FEE_PER_KB_PAYLOAD
           end)
  /\ (txType tx = Transfer -> payload tx = None -> calculateFee tx = BASE_FEE)
  /\ (txType tx = Transfer -> payload_length tx = 1024 ->
      calculateFee tx = BASE_FEE + FEE_PER_KB_PAYLOAD).
Proof.
  set (len := payload_length tx).
  assert (Hfee : calculateFee tx
                 = match txType tx with
                   | Stake | Unstake | SubmitProposal => STAKING_FEE
                   | Transfer | Vote =>
                       BASE_FEE + ceil_div len 1024 * FEE_PER_KB_PAYLOAD
                   end).
  { unfold calculateFee, len, payload_length.
    destruct (txType tx); cbn; try done; by destruct (payload tx). }
  split; [|split].
  - exists (ceil_div len 1024). split; [apply ceil_div_1024 | done].
  - intros Hk Hp. rewrite Hfee, Hk. unfold len, payload_length. by rewrite Hp.
  - intros Hk Hl. rewrite Hfee, Hk, Hl. reflexivity.
Qed.

(** ** The builder *)

(** C7: [sign] returns a record that has the kind, chain id, sender,
    recipient, amount, payload, nonce and timestamp of its argument, and
    as signature the builder key's signature of [serializeForSigning] of
    the argument.  On the object store, the result is a new object and
    every object that existed before the call, the argument included, is
    what it was. *)
Theorem sign_frame (this : TransactionBuilder) (tx : Transaction) :
  (txType (sign this tx) = txType tx
   /\ chainId (sign this tx) = chainId tx
   /\ from (sign this tx) = from tx
   /\ to (sign this tx) = to tx
   /\ amount (sign this tx) = amount tx
   /\ payload (sign this tx) = payload tx
   /\ nonce (sign this tx) = nonce tx
   /\ timestamp (sign this tx) = timestamp tx
   /\ signature (sign this tx)
      = ed_sign (serializeForSigning tx) (privateKey (keyPair this)))
  /\ (forall (heap : gmap positive Transaction) (r : positive),
        heap !! r = Some tx ->
        exists r' heap',
          sign_ref this r heap = Some (r', heap')
          /\ heap !! r' = None
          /\ heap' !! r' = Some (sign this tx)
          /\ heap' !! r = Some tx
          /\ (forall l obj, heap !! l = Some obj -> heap' !! l = Some obj)).
Proof.
  split; [by repeat split|].
  intros heap r Hr. unfold sign_ref. rewrite Hr. cbn.
  set (r' := fresh (dom heap)).
  assert (Hfresh : heap !! r' = None).
  { apply not_elem_of_dom, is_fresh. }
  exists r', (<[r' := sign this tx]> heap).
  split; [done|]. split; [done|]. split; [apply lookup_insert_eq|].
  assert (Hframe : forall l obj, heap !! l = Some obj ->
            <[r' := sign this tx]> heap !! l = Some obj).
  { intros l obj Hl. rewrite lookup_insert_ne; [done|]. congruence. }
  split; [by apply Hframe | exact Hframe].
Qed.

(** C8: the records built by [buildStake], [buildUnstake],
    [buildSubmitProposal] and [buildVote] have [to] equal to [from], both
    the builder key's public key; those of [buildStake] and [buildUnstake]
    have no payload; those of [buildVote] have amount 0. *)
Theorem builder_invariants (this : TransactionBuilder) (now : Z) :
  (forall options,
      let tx := buildStake this now options in
      to tx = from tx /\ from tx = publicKey (keyPair this)
      /\ payload tx = None)
  /\ (forall options,
        let tx := buildUnstake this now options in
        to tx = from tx /\ from tx = publicKey (keyPair this)
        /\ payload tx = None)
  /\ (forall options tx,
        buildSubmitProposal this now options = Ok tx ->
        to tx = from tx /\ from tx = publicKey (keyPair this))
  /\ (forall options,
        let tx := buildVote this now options in
        to tx = from tx /\ from tx = publicKey (keyPair this)
        /\ amount tx = 0).
Proof.
  split; [|split; [|split]]; [done | done | | done].
  intros options tx. unfold buildSubmitProposal.
  destruct (validatePayload _); cbn; [|discriminate].
  by intros [= <-].
Qed.

(** The kinds of the records built. *)
Lemma builder_kinds (this : TransactionBuilder) (now : Z) :
  (forall o, txType (buildStake this now o) = Stake)
  /\ (forall o, txType (buildUnstake this now o) = Unstake)
  /\ (forall o tx, buildSubmitProposal this now o = Ok tx ->
                   txType tx = SubmitProposal)
  /\ (forall o, txType (buildVote this now o) = Vote).
Proof.
  repeat split. intros o tx. unfold buildSubmitProposal.
  destruct (validatePayload _); cbn; by intros [= <-].
Qed.

(** [buildTransfer] passes a [Uint8Array] of length zero on as a present
    payload: such records are produced by the SDK itself. *)
Lemma buildTransfer_empty_array (this : TransactionBuilder) (now : Z)
    (toAddr : string) (a n : Z) (c : option string) (ts : option Z) tx :
  buildTransfer this now
    {| transfer_to := toAddr; transfer_amount := a;
       transfer_payload := Some (inl []); transfer_nonce := n;
       transfer_chainId := c; transfer_timestamp := ts |} = Ok tx ->
  payload tx = Some [].
Proof.
  unfold buildTransfer. cbn.
  destruct (parseAddress toAddr); cbn; by intros [= <-].
Qed.

(** ** Merkle root *)

Lemma merkleLoop_short (l : list bytes) :
  (length l <= 1)%nat -> merkleLoop l = l.
Proof.
  intros H. rewrite merkleLoop_equation_1.
  destruct (decide (1 < length l)%nat); [lia | done].
Qed.

Lemma merkleLoop_step (l : list bytes) :
  (1 < length l)%nat -> merkleLoop l = merkleLoop (nextLevel l).
Proof.
  intros H. rewrite merkleLoop_equation_1 at 1.
  destruct (decide (1 < length l)%nat); [done | lia].
Qed.

(** The loop ends with exactly one digest when it starts with at least
    one. *)
Lemma merkleLoop_singleton (l : list bytes) :
  l <> [] -> exists h, merkleLoop l = [h].
Proof.
  induction l as [l IH] using (induction_ltof1 _ (@length bytes)).
  intros Hne. destruct (decide (1 < length l)%nat) as [Hlong|Hshort].
  - rewrite merkleLoop_step by done. apply IH.
    + by apply nextLevel_shrinks.
    + intros Hnil. apply (f_equal length) in Hnil.
      rewrite nextLevel_length in Hnil. destruct l as [|? [|? ?]]; simpl in *; lia.
  - rewrite merkleLoop_short by lia.
    destruct l as [|h [|? ?]]; [done | by exists h | simpl in *; lia].
Qed.

Lemma merkleRoot_long (h1 h2 : bytes) (rest : list bytes) :
  merkleRoot (h1 :: h2 :: rest) = merkleRoot (nextLevel (h1 :: h2 :: rest)).
Proof.
  set (l := h1 :: h2 :: rest).
  assert (Hlong : (1 < length l)%nat) by (simpl; lia).
  change (merkleRoot l) with (merkleLoop l !! 0%nat).
  rewrite merkleLoop_step by done.
  destruct (nextLevel l) as [|a [|b r]] eqn:Hn.
  - apply (f_equal length) in Hn. by rewrite nextLevel_length in Hn.
  - by rewrite merkleLoop_short by (simpl; lia).
  - done.
Qed.

(** The element at position [i] of the next level combines the elements
    at [2 i] and [2 i + 1] of the current one, the first of them twice
    when the second does not exist. *)
Lemma nextLevel_lookup (l : list bytes) (i : nat) :
  nextLevel l !! i
  = (left_ ← l !! (2 * i)%nat;
     Some (hash (inr (left_ ++ default left_ (l !! (2 * i + 1)%nat))))).
Proof.
  revert i. induction l as [l IH] using (induction_ltof1 _ (@length bytes)).
  intros i. destruct l as [|a [|b r]]; [done | by destruct i |].
  destruct i as [|i]; [done|].
  cbn [nextLevel]. replace (2 * S i)%nat with (S (S (2 * i))) by lia.
  replace (S (S (2 * i)) + 1)%nat with (S (S (2 * i + 1))) by lia.
  cbn [lookup list_lookup]. apply IH. unfold ltof. simpl. lia.
Qed.

(** C3: [merkleRoot] of the empty list is the digest of the empty byte
    string; of a one-element list, that element; of a longer list, the
    root of the next level, in which adjacent elements are hashed in pairs
    from the left and the last element of a level of odd length is paired
    with itself.  It always yields a digest. *)
Theorem merkleRoot_spec :
  merkleRoot [] = Some (sha3_256 [])
  /\ (forall h, merkleRoot [h] = Some h)
  /\ (forall h1 h2, merkleRoot [h1; h2] = Some (hash (inr (h1 ++ h2))))
  /\ (forall h1 h2 h3,
        merkleRoot [h1; h2; h3]
        = Some (hash (inr (hash (inr (h1 ++ h2)) ++ hash (inr (h3 ++ h3))))))
  /\ (forall h1 h2 rest,
        merkleRoot (h1 :: h2 :: rest)
        = merkleRoot (nextLevel (h1 :: h2 :: rest)))
  /\ (forall level : list bytes,
        length (nextLevel level) = ((length level + 1) / 2)%nat
        /\ forall i,
             nextLevel level !! i
             = (left_ ← level !! (2 * i)%nat;
                Some (hash (inr (left_
                                 ++ default left_ (level !! (2 * i + 1)%nat))))))
  /\ (forall hashes, exists root, merkleRoot hashes = Some root).
Proof.
  split; [done|]. split; [done|].
  split; [intros; by rewrite merkleRoot_long|].
  split.
  { intros. rewrite merkleRoot_long. cbn [nextLevel].
    by rewrite merkleRoot_long. }
  split; [apply merkleRoot_long|].
  split.
  - intros level. split; [|apply nextLevel_lookup].
    rewrite nextLevel_length, Nat.div2_div. f_equal. lia.
  - intros [|h1 [|h2 rest]]; [by eexists..|].
    change (merkleRoot (h1 :: h2 :: rest))
      with (merkleLoop (h1 :: h2 :: rest) !! 0%nat).
    destruct (merkleLoop_singleton (h1 :: h2 :: rest)) as [h ->]; [done|].
    by exists h.
Qed.

(** ** Key derivation *)

Lemma setUint32_be_value (v : Z) : be_value (setUint32_be v) = v mod 2 ^ 32.
Proof.
  unfold setUint32_be. cbn [be_value fold_left].
  rewrite !to_uint8_value, !Z.shiftr_div_pow2 by lia.
  assert (Hu : 0 <= v mod 2 ^ 32 < 2 ^ 32) by (apply Z.mod_pos_bound; lia).
  generalize dependent (v mod 2 ^ 32). intros u Hu.
  change (2 ^ 24) with 16777216. change (2 ^ 16) with 65536.
  change (2 ^ 8) with 256. change (2 ^ 32) with 4294967296 in Hu.
  Z.to_euclidean_division_equations. lia.
Qed.

Lemma mnemonicToKeyPair_invalid (mnemonic passphrase : string) (i : Z) :
  isValidMnemonic mnemonic = false ->
  mnemonicToKeyPair mnemonic passphrase i = Throw (TesseraError InvalidMnemonic).
Proof. unfold mnemonicToKeyPair. by intros ->. Qed.

Section Derivation.
Hypothesis sha3_256_length : forall d, length (sha3_256 d) = 32%nat.

Lemma fromSeed_digest (d : bytes) :
  fromSeed (sha3_256 d)
  = Ok (mkKeyPair (sha3_256 d) (ed_getPublicKey (sha3_256 d))).
Proof.
  unfold fromSeed, fromPrivateKey. by rewrite sha3_256_length.
Qed.

Lemma mnemonicToKeyPair_valid (mnemonic passphrase : string) (i : Z) :
  isValidMnemonic mnemonic = true ->
  mnemonicToKeyPair mnemonic passphrase i
  = Ok (derived_keyPair mnemonic passphrase i).
Proof.
  unfold mnemonicToKeyPair. intros ->. cbn [negb].
  unfold hash. apply fromSeed_digest.
Qed.

Lemma keyPairs_loop_valid (mnemonic passphrase : string) (remaining : nat) :
  isValidMnemonic mnemonic = true ->
  forall (i : Z) (keyPairs : list KeyPair),
    keyPairs_loop mnemonic passphrase remaining i keyPairs
    = Ok (keyPairs
          ++ map (derived_keyPair mnemonic passphrase)
               (seqZ i (Z.of_nat remaining))).
Proof.
  intros Hvalid. induction remaining as [|n IH]; intros i keyPairs.
  - cbn. by rewrite app_nil_r.
  - cbn [keyPairs_loop]. rewrite mnemonicToKeyPair_valid by done.
    cbn [mbind result_bind]. rewrite IH, <- app_assoc.
    rewrite (seqZ_cons i (Z.of_nat (S n))) by lia.
    replace (Z.succ i) with (i + 1) by lia.
    replace (Z.pred (Z.of_nat (S n))) with (Z.of_nat n) by lia.
    reflexivity.
Qed.
End Derivation.

(** C5: for a phrase that passes validation, [mnemonicToKeyPair] returns
    the key pair whose private key is the digest of the seed of (phrase,
    passphrase) followed by the four bytes of [accountIndex], most
    significant first (the index is taken modulo 2^32), that digest being
    the private key as [fromSeed] takes it; and [mnemonicToKeyPairs]
    returns these key pairs for the indices 0, 1, ..., count - 1, in this
    order.  The digest function is assumed to yield 32 bytes. *)
Theorem mnemonicToKeyPair_derivation
    (sha3_256_length : forall d, length (sha3_256 d) = 32%nat)
    (mnemonic passphrase : string) (accountIndex : Z) :
  isValidMnemonic mnemonic = true ->
  mnemonicToKeyPair mnemonic passphrase accountIndex
  = Ok (derived_keyPair mnemonic passphrase accountIndex)
  /\ privateKey (derived_keyPair mnemonic passphrase accountIndex)
     = hash (inr (mnemonicToSeedSync mnemonic passphrase
                  ++ setUint32_be accountIndex))
  /\ length (privateKey (derived_keyPair mnemonic passphrase accountIndex))
     = 32%nat
  /\ fromSeed (privateKey (derived_keyPair mnemonic passphrase accountIndex))
     = Ok (derived_keyPair mnemonic passphrase accountIndex)
  /\ (length (setUint32_be accountIndex) = 4%nat
      /\ be_value (setUint32_be accountIndex) = accountIndex mod 2 ^ 32)
  /\ (forall count : Z,
        mnemonicToKeyPairs mnemonic count passphrase
        = Ok (map (derived_keyPair mnemonic passphrase) (seqZ 0 count))).
Proof.
  intros Hvalid.
  split; [by apply mnemonicToKeyPair_valid|].
  split; [done|].
  split; [apply sha3_256_length|].
  split; [by apply fromSeed_digest|].
  split; [split; [done | apply setUint32_be_value]|].
  intros count. unfold mnemonicToKeyPairs.
  rewrite keyPairs_loop_valid by done. cbn [app].
  destruct (Z.le_gt_cases 0 count).
  - by rewrite Z2Nat.id.
  - rewrite Z2Nat.nonpos by lia. by rewrite !seqZ_nil by lia.
Qed.
End Properties.

(** ** Amounts *)

Lemma code_inj (c d : ascii) : Js.code c = Js.code d -> c = d.
Proof.
  unfold Js.code. intros H.
  by rewrite <- (ascii_N_embedding c), <- (ascii_N_embedding d), H.
Qed.

Lemma dec_digit_not_dot (c : ascii) : dec_digit c = true -> Ascii.eqb c "." = false.
Proof.
  intros H%dec_digit_code. apply Ascii.eqb_neq. intros ->.
  change (Js.code ".") with 46%N in H. lia.
Qed.

Lemma split_digits (l : list ascii) :
  forallb dec_digit l = true -> Js.split "." l = [l].
Proof.
  induction l as [|c r IH]; [done|]. cbn. intros [Hc Hr]%andb_true_iff.
  by rewrite dec_digit_not_dot, IH.
Qed.

Lemma split_dot (ip dp : list ascii) :
  forallb dec_digit ip = true -> forallb dec_digit dp = true ->
  Js.split "." (ip ++ "."%char :: dp) = [ip; dp].
Proof.
  intros Hip Hdp. induction ip as [|c r IH].
  - cbn. by rewrite split_digits.
  - cbn in *. apply andb_true_iff in Hip as [Hc Hr].
    by rewrite dec_digit_not_dot, IH.
Qed.

Lemma digits_and_dots_0 (l : list ascii) :
  digits_and_dots 0 l = true -> forallb dec_digit l = true.
Proof.
  induction l as [|c r IH]; [done|]. cbn.
  destruct (Ascii.eqb c "."); [done|].
  intros [Hc Hr]%andb_true_iff. by rewrite Hc, IH.
Qed.

Lemma digits_and_dots_1 (l : list ascii) :
  digits_and_dots 1 l = true ->
  forallb dec_digit l = true
  \/ exists ip dp, forallb dec_digit ip = true /\ forallb dec_digit dp = true
                   /\ l = ip ++ "."%char :: dp.
Proof.
  induction l as [|c r IH]; [by left|]. cbn.
  destruct (Ascii.eqb_spec c ".") as [->|Hne].
  - intros Hr%digits_and_dots_0. right. by exists [], r.
  - intros [Hc Hr]%andb_true_iff.
    destruct (IH Hr) as [Hd | (ip & dp & Hip & Hdp & ->)].
    + left. cbn. by rewrite Hc, Hd.
    + right. exists (c :: ip), dp. cbn. by rewrite Hc, Hip.
Qed.

Lemma slice_prefix (l : list ascii) (n : nat) :
  Js.slice l 0 (Some (Z.of_nat n)) = take n l.
Proof.
  unfold Js.slice, default, id. cbn [from_option].
  destruct (Z.ltb_spec (Z.of_nat n) 0); [lia|].
  change (0 <? 0) with false. cbv iota.
  rewrite (Z.min_l 0) by lia. change (Z.to_nat 0) with 0%nat.
  rewrite drop_0, Z.sub_0_r.
  destruct (decide (n <= length l)%nat).
  - rewrite Z.min_l by lia. by rewrite Nat2Z.id.
  - rewrite Z.min_r by lia. rewrite Nat2Z.id.
    rewrite (take_ge l n) by lia. by rewrite take_ge by lia.
Qed.

Lemma forallb_take {A} (P : A -> bool) (n : nat) (l : list A) :
  forallb P l = true -> forallb P (take n l) = true.
Proof.
  revert n. induction l as [|a l IH]; intros [|n]; try done.
  cbn. intros [Ha Hl]%andb_true_iff. by rewrite Ha, IH.
Qed.

Lemma forallb_drop {A} (P : A -> bool) (n : nat) (l : list A) :
  forallb P l = true -> forallb P (drop n l) = true.
Proof.
  revert n. induction l as [|a l IH]; intros [|n]; try done.
  cbn. intros [Ha Hl]%andb_true_iff. by apply IH.
Qed.

Lemma forallb_repeat_zero (n : nat) : forallb dec_digit (repeat "0"%char n) = true.
Proof. induction n; [done|]. cbn. by rewrite IHn. Qed.

Lemma base_unit_digits_ok (ip dp : list ascii) :
  forallb dec_digit ip = true -> forallb dec_digit dp = true ->
  base_unit_digits ip dp <> []
  /\ forallb dec_digit (base_unit_digits ip dp) = true.
Proof.
  intros Hip Hdp. unfold base_unit_digits. split.
  - by destruct ip.
  - rewrite forallb_app. apply andb_true_iff. split.
    + by destruct ip.
    + apply forallb_take. rewrite forallb_app, Hdp. apply forallb_repeat_zero.
Qed.

(** The fraction as [parseAmount] pads or truncates it. *)
Lemma fraction_digits (dp : list ascii) :
  (if (TOKEN_DECIMALS <? length dp)%nat
   then Js.slice dp 0 (Some (Z.of_nat TOKEN_DECIMALS))
   else Js.padEnd TOKEN_DECIMALS "0" dp)
  = take 6 (dp ++ repeat "0"%char 6).
Proof.
  unfold TOKEN_DECIMALS. destruct (Nat.ltb_spec 6 (length dp)).
  - rewrite slice_prefix. by rewrite take_app_le by lia.
  - unfold Js.padEnd. rewrite take_app_ge by lia. f_equal.
    generalize (length dp) H. intros n Hn.
    do 7 (destruct n as [|n]; [done|]). lia.
Qed.


Lemma BigInt_digits (l : list ascii) :
  l <> [] -> forallb dec_digit l = true ->
  Js.BigInt l = Ok (Z.of_N (Js.radix_value 10 l)).
Proof. intros. unfold Js.BigInt. by rewrite StringToBigInt_digits. Qed.

Lemma parseAmount_parts (amount : string) (ip dp : list ascii) :
  forallb dec_digit ip = true -> forallb dec_digit dp = true ->
  (Js.split "." (Js.units amount) = [ip]  /\ dp = []
   \/ Js.split "." (Js.units amount) = [ip; dp]) ->
  parseAmount amount
  = Ok (Z.of_N (Js.radix_value 10 (base_unit_digits ip dp))).
Proof.
  intros Hip Hdp Hsplit.
  destruct (base_unit_digits_ok ip dp Hip Hdp) as [Hne Hdigits].
  unfold parseAmount.
  assert (Hparts :
    (2 <? length (Js.split "." (Js.units amount)))%nat = false
    /\ Js.split "." (Js.units amount) !! 0%nat = Some ip
    /\ default [] (Js.split "." (Js.units amount) !! 1%nat) = dp).
  { destruct Hsplit as [[-> ->] | ->]; by repeat split. }
  destruct Hparts as (-> & -> & ->).
  rewrite fraction_digits.
  replace (match ip with [] => ["0"%char] | c :: r => c :: r end
           ++ take 6 (dp ++ repeat "0"%char 6))
    with (base_unit_digits ip dp) by (unfold base_unit_digits; by destruct ip).
  rewrite BigInt_digits by done. cbn [mbind result_bind].
  destruct (Z.ltb_spec (Z.of_N (Js.radix_value 10 (base_unit_digits ip dp))) 0);
    [lia | done].
Qed.

Lemma parseAmount_integer (ip : list ascii) :
  forallb dec_digit ip = true ->
  parseAmount (Js.str ip)
  = Ok (Z.of_N (Js.radix_value 10 (base_unit_digits ip []))).
Proof.
  intros Hip. apply parseAmount_parts; [done..|].
  left. by rewrite units_str, split_digits.
Qed.

Lemma parseAmount_fraction (ip dp : list ascii) :
  forallb dec_digit ip = true -> forallb dec_digit dp = true ->
  parseAmount (Js.str (ip ++ "."%char :: dp))
  = Ok (Z.of_N (Js.radix_value 10 (base_unit_digits ip dp))).
Proof.
  intros Hip Hdp. apply parseAmount_parts; [done..|].
  right. by rewrite units_str, split_dot.
Qed.

(** Trailing zeros, and leading zeros. *)
Lemma strip_trailing_zeros_pad (l : list ascii) :
  Js.strip_trailing_zeros l
  ++ repeat "0"%char (length l - length (Js.strip_trailing_zeros l)) = l.
Proof.
  induction l as [|c r IH]; [done|]. cbn [Js.strip_trailing_zeros].
  destruct (Js.strip_trailing_zeros r) as [|c' r'] eqn:Hr.
  - simpl in IH. rewrite Nat.sub_0_r in IH.
    destruct (N.eqb_spec (Js.code c) 48) as [Hc|Hc]; simpl;
      rewrite ?Nat.sub_0_r, IH; [|done].
    f_equal. symmetry. by apply code_inj.
  - simpl in *. by f_equal.
Qed.

Lemma strip_trailing_zeros_digits (l : list ascii) :
  forallb dec_digit l = true ->
  forallb dec_digit (Js.strip_trailing_zeros l) = true.
Proof.
  intros H. rewrite <- (strip_trailing_zeros_pad l), forallb_app in H.
  by apply andb_true_iff in H as [? _].
Qed.

Lemma strip_trailing_zeros_length (l : list ascii) :
  (length (Js.strip_trailing_zeros l) <= length l)%nat.
Proof.
  pose proof (f_equal length (strip_trailing_zeros_pad l)) as H.
  rewrite length_app in H. lia.
Qed.

Lemma radix_value_leading_zeros (n : nat) (l : list ascii) :
  Js.radix_value 10 (repeat "0"%char n ++ l) = Js.radix_value 10 l.
Proof.
  unfold Js.radix_value. rewrite fold_left_app. f_equal.
  induction n as [|n IH]; [done|]. exact IH.
Qed.

Lemma slice_suffix (l : list ascii) (k : nat) :
  (0 < k <= length l)%nat ->
  Js.slice l 0 (Some (- Z.of_nat k)) = take (length l - k) l
  /\ Js.slice l (- Z.of_nat k) None = drop (length l - k) l.
Proof.
  intros Hk. unfold Js.slice, default, id. cbn [from_option].
  change (0 <? 0) with false. cbv iota.
  destruct (Z.ltb_spec (- Z.of_nat k) 0); [|lia].
  destruct (Z.ltb_spec (Z.of_nat (length l)) 0); [lia|].
  rewrite (Z.min_l 0), Z.max_l, Z.min_l by lia.
  change (Z.to_nat 0) with 0%nat. rewrite drop_0, Z.sub_0_r.
  replace (Z.to_nat (Z.of_nat (length l) + - Z.of_nat k))
    with (length l - k)%nat by lia.
  split; [done|]. apply take_ge. rewrite length_drop. lia.
Qed.

Lemma take_pad (t : list ascii) :
  (length t <= 6)%nat ->
  take 6 (t ++ repeat "0"%char 6) = t ++ repeat "0"%char (6 - length t).
Proof.
  intros H. rewrite take_app_ge by lia. f_equal.
  generalize (length t) H. intros n Hn.
  do 7 (destruct n as [|n]; [done|]). lia.
Qed.

Lemma formatAmount_digits (b : Z) :
  0 <= b ->
  exists ip dp,
    forallb dec_digit ip = true /\ forallb dec_digit dp = true
    /\ (formatAmount b = Js.str ip /\ dp = []
        \/ formatAmount b = Js.str (ip ++ "."%char :: dp))
    /\ Js.radix_value 10 (base_unit_digits ip dp) = Z.to_N b.
Proof.
  intros Hb. unfold formatAmount, formatAmountWith, TOKEN_DECIMALS, Js.bigint_toString.
  destruct (Z.ltb_spec b 0); [lia|].
  replace (Z.abs_N b) with (Z.to_N b) by lia.
  set (str7 := Js.padStart (6 + 1) "0" (Js.decimal (Z.to_N b))).
  assert (Hdigits : forallb dec_digit str7 = true).
  { unfold str7, Js.padStart.
    by rewrite forallb_app, forallb_repeat_zero, decimal_digits. }
  assert (Hlen : (7 <= length str7)%nat).
  { unfold str7, Js.padStart. rewrite length_app, repeat_length. lia. }
  assert (Hvalue : Js.radix_value 10 str7 = Z.to_N b).
  { unfold str7, Js.padStart.
    by rewrite radix_value_leading_zeros, decimal_value. }
  destruct (slice_suffix str7 6) as [-> ->]; [lia|].
  set (ip := take (length str7 - 6) str7).
  set (dpart := drop (length str7 - 6) str7).
  assert (Hip : forallb dec_digit ip = true) by by apply forallb_take.
  assert (Hdp : forallb dec_digit dpart = true) by by apply forallb_drop.
  assert (Hdplen : length dpart = 6%nat).
  { unfold dpart. rewrite length_drop. lia. }
  assert (Hsplit : ip ++ dpart = str7) by apply take_drop.
  assert (Hipne : ip <> []).
  { intros Hnil. apply (f_equal length) in Hnil.
    unfold ip in Hnil. rewrite length_take in Hnil. simpl in Hnil. lia. }
  clearbody ip dpart. destruct ip as [|c0 ip]; [done|].
  pose proof (strip_trailing_zeros_pad dpart) as Hpad.
  pose proof (strip_trailing_zeros_length dpart) as Hle.
  pose proof (strip_trailing_zeros_digits dpart Hdp) as Hsd.
  rewrite Hdplen in Hpad, Hle.
  exists (c0 :: ip), (Js.strip_trailing_zeros dpart).
  split; [done|]. split; [done|]. split.
  - destruct (Js.strip_trailing_zeros dpart); [by left | by right].
  - unfold base_unit_digits. by rewrite take_pad, Hpad, Hsplit.
Qed.

Lemma parseAmount_formatAmount (b : Z) :
  0 <= b -> parseAmount (formatAmount b) = Ok b.
Proof.
  intros Hb.
  destruct (formatAmount_digits b Hb)
    as (ip & dp & Hip & Hdp & [[-> ->] | ->] & Hvalue).
  - rewrite parseAmount_integer, Hvalue by done. f_equal. lia.
  - rewrite parseAmount_fraction, Hvalue by done. f_equal. lia.
Qed.

Lemma base_unit_digits_truncate (ip dp extra : list ascii) :
  length dp = 6%nat ->
  base_unit_digits ip (dp ++ extra) = base_unit_digits ip dp.
Proof.
  intros H. unfold base_unit_digits. f_equal.
  rewrite <- app_assoc. by rewrite !take_app_le by lia.
Qed.

(** C10: on a string of decimal digits with at most one decimal point,
    [parseAmount] does not throw and returns the number written by the
    integer part ("0" if empty) followed by the first six digits of the
    fraction, filled up with zeros; digits after the sixth decimal place do
    not change the result, so "1.0000009" and "1.0" both give 1000000; and
    [parseAmount (formatAmount b)] is [b] for every [b >= 0]. *)
Theorem parseAmount_truncates_and_inverts_formatAmount :
  (forall s, decimal_amount s = true ->
             exists v, 0 <= v /\ parseAmount s = Ok v)
  /\ (forall ip dp,
        forallb dec_digit ip = true -> forallb dec_digit dp = true ->
        parseAmount (Js.str ip)
        = Ok (Z.of_N (Js.radix_value 10 (base_unit_digits ip [])))
        /\ parseAmount (Js.str (ip ++ "."%char :: dp))
           = Ok (Z.of_N (Js.radix_value 10 (base_unit_digits ip dp))))
  /\ (forall ip dp extra,
        forallb dec_digit ip = true -> forallb dec_digit dp = true ->
        forallb dec_digit extra = true -> length dp = 6%nat ->
        parseAmount (Js.str (ip ++ "."%char :: dp ++ extra))
        = parseAmount (Js.str (ip ++ "."%char :: dp)))
  /\ parseAmount "1.0000009" = Ok 1000000
  /\ parseAmount "1.0" = Ok 1000000
  /\ (forall b, 0 <= b -> parseAmount (formatAmount b) = Ok b).
Proof.
  split; [|split; [|split; [|split; [|split]]]].
  - intros s Hs. unfold decimal_amount in Hs.
    apply digits_and_dots_1 in Hs as [Hd | (ip & dp & Hip & Hdp & Hs)].
    + exists (Z.of_N (Js.radix_value 10 (base_unit_digits (Js.units s) []))).
      split; [lia|]. rewrite <- (str_units s) at 1. by apply parseAmount_integer.
    + exists (Z.of_N (Js.radix_value 10 (base_unit_digits ip dp))).
      split; [lia|]. rewrite <- (str_units s), Hs. by apply parseAmount_fraction.
  - intros ip dp Hip Hdp.
    split; [by apply parseAmount_integer | by apply parseAmount_fraction].
  - intros ip dp extra Hip Hdp Hextra Hlen.
    rewrite !parseAmount_fraction, base_unit_digits_truncate; try done.
    by rewrite forallb_app, Hdp, Hextra.
  - reflexivity.
  - reflexivity.
  - apply parseAmount_formatAmount.
Qed.

(** ** Instances of the statements that have hypotheses *)

Lemma parseAmount_truncates_and_inverts_formatAmount_witness :
  (exists v, 0 <= v /\ parseAmount "12.3456789" = Ok v)
  /\ parseAmount "7.1234569" = parseAmount "7.123456"
  /\ parseAmount (formatAmount 100500000) = Ok 100500000.
Proof.
  destruct parseAmount_truncates_and_inverts_formatAmount
    as (Hok & _ & Htrunc & _ & _ & Hinv).
  split; [apply Hok; reflexivity|].
  split; [|apply Hinv; lia].
  apply (Htrunc (Js.units "7") (Js.units "123456") (Js.units "9"));
    reflexivity.
Defined.

Lemma hexToBytes_throws_iff_witness :
  hexToBytes "00zz" = Throw (TesseraError InvalidAddress).
Proof.
  apply (proj1 (hexToBytes_throws_iff "00zz")).
  right. exists 1%nat, "z"%char, "z"%char. repeat split.
Defined.

Lemma jsonToTransaction_inherited_name_witness :
  exists tx,
    jsonToTransaction (wire_of_kind "toString") = Ok tx
    /\ txType tx = Inherited "toString" /\ txType tx <> OwnKind Transfer.
Proof.
  eexists. split; [reflexivity|].
  apply (proj2 jsonToTransaction_inherited_name "toString"%string).
  - unfold Object_prototype. set_solver.
  - reflexivity.
Defined.

Lemma calculateFee_spec_witness :
  calculateFee sample_transfer = BASE_FEE + FEE_PER_KB_PAYLOAD.
Proof.
  apply (proj2 (proj2 (calculateFee_spec sample_transfer))); reflexivity.
Defined.

Lemma sample_sha3_256_length (d : bytes) :
  length (@sha3_256 sample_externals d) = 32%nat.
Proof.
  cbn [sha3_256 sample_externals].
  rewrite length_take, length_app, repeat_length. lia.
Qed.

Lemma mnemonicToKeyPair_derivation_witness :
  @mnemonicToKeyPairs sample_externals "abandon about" 2 ""
  = Ok [@derived_keyPair sample_externals "abandon about" "" 0;
        @derived_keyPair sample_externals "abandon about" "" 1].
Proof.
  apply (@mnemonicToKeyPair_derivation sample_externals sample_sha3_256_length
           "abandon about" "" 0).
  reflexivity.
Defined.

Lemma sign_frame_witness :
  exists r' heap',
    @sign_ref sample_externals sample_builder 1%positive
      {[ 1%positive := sample_transfer ]} = Some (r', heap')
    /\ ({[ 1%positive := sample_transfer ]} : gmap positive Transaction) !! r'
       = None
    /\ heap' !! r' = Some (@sign sample_externals sample_builder sample_transfer)
    /\ heap' !! 1%positive = Some sample_transfer
    /\ (forall l obj,
          ({[ 1%positive := sample_transfer ]} : gmap positive Transaction) !! l
          = Some obj ->
          heap' !! l = Some obj).
Proof.
  apply (proj2 (@sign_frame sample_externals sample_builder sample_transfer)).
  apply lookup_singleton_eq.
Defined.

Lemma builder_invariants_witness :
  exists tx,
    @buildSubmitProposal sample_externals sample_builder 0 sample_proposal
    = Ok tx
    /\ to tx = from tx /\ from tx = publicKey (keyPair sample_builder).
Proof.
  eexists. split; [reflexivity|].
  apply (proj1 (proj2 (proj2
           (@builder_invariants sample_externals sample_builder 0)))
           sample_proposal).
  reflexivity.
Defined.

(** * Further properties *)

(** ** Hexadecimal strings and addresses *)

Lemma hex_pair_lower (b : byte) : forallb lower_hex (hex_pair b) = true.
Proof. destruct b; reflexivity. Qed.

Lemma hex_concat_lower (bs : bytes) :
  forallb lower_hex (concat (map hex_pair bs)) = true.
Proof.
  induction bs as [|b bs IH]; [done|].
  cbn [map concat]. by rewrite forallb_app, hex_pair_lower, IH.
Qed.

Lemma lower_hex_is_hex (c : ascii) : lower_hex c = true -> is_hex c = true.
Proof. destruct c as [[] [] [] [] [] [] [] []]; by vm_compute. Qed.

Lemma forallb_impl {A} (P Q : A -> bool) (l : list A) :
  (forall a, P a = true -> Q a = true) ->
  forallb P l = true -> forallb Q l = true.
Proof.
  intros HPQ. induction l as [|a l IH]; [done|]. cbn.
  intros [Ha Hl]%andb_true_iff. by rewrite HPQ, IH.
Qed.

(** A pair of hexadecimal digits is read as sixteen times the first plus
    the second. *)
Lemma parseInt16_hex_pair (a b : ascii) :
  is_hex a = true -> is_hex b = true ->
  Js.parseInt16 [a; b]
  = Some (Z.of_N (default 0%N (Js.digit_val a) * 16
                  + default 0%N (Js.digit_val b))).
Proof.
  unfold is_hex. intros Ha Hb.
  unfold Js.parseInt16. cbn [Js.skip_ws Js.digit_prefix].
  destruct (classify_spec a) as (A1 & A2 & A3 & A4 & A5 & A6).
  destruct (classify_spec b) as (B1 & B2 & B3 & B4 & B5 & B6).
  rewrite Ha in A6. rewrite Hb in B6.
  destruct (classify a); try discriminate A6;
    destruct (classify b); try discriminate B6;
    cbn in *;
    repeat (progress
      (rewrite ?A1, ?A2, ?A3, ?A4, ?A5, ?Ha, ?Hb, ?B1, ?B2, ?B3, ?B4, ?B5; cbn));
    unfold Js.digit_step; f_equal; lia.
Qed.

Lemma hex_digit_bound (c : ascii) :
  (default 0%N (Js.digit_val c) < 16)%N \/ is_hex c = false.
Proof. destruct c as [[] [] [] [] [] [] [] []]; vm_compute; auto. Qed.

(** The bytes decoded from a string of hexadecimal digits. *)
Lemma hex_pairs_valid (l : list ascii) :
  forallb is_hex l = true -> Nat.even (length l) = true ->
  exists bs,
    hex_pairs l = Ok bs
    /\ (2 * length bs = length l)%nat
    /\ forall i a b, pair_at l i a b ->
         exists x, bs !! i = Some x
           /\ byte_value x
              = Z.of_N (default 0%N (Js.digit_val a) * 16
                        + default 0%N (Js.digit_val b)).
Proof.
  induction l as [l IH] using (induction_ltof1 _ (@length ascii)).
  intros Hhex Heven. destruct l as [|a [|b r]]; [| discriminate Heven |].
  - exists []. split; [done|]. split; [done|].
    intros i a b [H _]. by destruct i.
  - cbn in Hhex. apply andb_true_iff in Hhex as [Ha [Hb Hr]%andb_true_iff].
    destruct (IH r) as (bs & Hbs & Hlen & Hval);
      [unfold ltof; simpl; lia | done | done |].
    cbn [hex_pairs]. rewrite parseInt16_hex_pair, Hbs by done.
    cbn [mbind result_bind]. eexists. split; [done|].
    split; [simpl; lia|].
    intros [|i] x y Hat.
    + destruct Hat as [Hx Hy]. cbn in Hx, Hy.
      injection Hx as <-. injection Hy as <-.
      eexists. split; [done|]. rewrite to_uint8_value.
      destruct (hex_digit_bound a) as [?|?], (hex_digit_bound b) as [?|?];
        try congruence.
      rewrite Z.mod_small; lia.
    + apply pair_at_cons2 in Hat. by apply Hval.
Qed.

Lemma lower_hex_cases (c : ascii) :
  lower_hex c = true ->
  In c ["0"; "1"; "2"; "3"; "4"; "5"; "6"; "7"; "8"; "9";
        "a"; "b"; "c"; "d"; "e"; "f"]%char.
Proof.
  destruct c as [[] [] [] [] [] [] [] []]; intros H;
    first [discriminate H | cbn; tauto].
Qed.

(** Printing the byte read from two lower-case digits gives them back. *)
Lemma hex_pair_of_lower (a b : ascii) :
  lower_hex a = true -> lower_hex b = true ->
  hex_pair (Js.to_uint8 (Z.of_N (default 0%N (Js.digit_val a) * 16
                                 + default 0%N (Js.digit_val b))))
  = [a; b].
Proof.
  intros Ha%lower_hex_cases Hb%lower_hex_cases. cbn in Ha, Hb.
  repeat destruct Ha as [Ha|Ha]; try contradiction; subst a;
    repeat destruct Hb as [Hb|Hb]; try contradiction; subst b; reflexivity.
Qed.

Lemma hex_pairs_lower (l : list ascii) :
  forallb lower_hex l = true -> Nat.even (length l) = true ->
  exists bs, hex_pairs l = Ok bs /\ concat (map hex_pair bs) = l.
Proof.
  induction l as [l IH] using (induction_ltof1 _ (@length ascii)).
  intros Hhex Heven. destruct l as [|a [|b r]]; [| discriminate Heven |].
  - by exists [].
  - cbn in Hhex. apply andb_true_iff in Hhex as [Ha [Hb Hr]%andb_true_iff].
    destruct (IH r) as (bs & Hbs & Hcat);
      [unfold ltof; simpl; lia | done | done |].
    cbn [hex_pairs].
    rewrite parseInt16_hex_pair, Hbs by by apply lower_hex_is_hex.
    cbn [mbind result_bind]. eexists. split; [done|].
    cbn [map concat]. by rewrite hex_pair_of_lower, Hcat.
Qed.

Lemma strip_0x_lower (l : list ascii) :
  forallb lower_hex l = true -> strip_0x l = l.
Proof.
  destruct l as [|z [|x r]]; try done. cbn.
  intros [_ [Hx _]%andb_true_iff]%andb_true_iff.
  destruct (Ascii.eqb_spec x "x") as [->|]; [discriminate Hx|].
  by rewrite andb_false_r.
Qed.

(** X1: decoding the hexadecimal form of any byte sequence gives the
    sequence back, with or without a "0x" in front. *)
Theorem hex_roundtrip (bs : bytes) :
  hexToBytes (bytesToHex bs) = Ok bs
  /\ hexToBytes ("0x" +:+ bytesToHex bs) = Ok bs.
Proof.
  split; [apply hexToBytes_bytesToHex|].
  unfold hexToBytes, bytesToHex.
  change (Js.units ("0x" +:+ Js.str (concat (map hex_pair bs))))
    with ("0"%char :: "x"%char :: Js.units (Js.str (concat (map hex_pair bs)))).
  rewrite units_str. cbn [strip_0x Ascii.eqb Bool.eqb andb].
  rewrite hex_concat_length, Nat.even_mul. apply hex_pairs_concat.
Qed.

(** X2: [bytesToHex] writes two lower-case hexadecimal digits per byte, and
    the result is accepted by [isValidHex]. *)
Theorem bytesToHex_shape (bs : bytes) :
  length (Js.units (bytesToHex bs)) = (2 * length bs)%nat
  /\ forallb lower_hex (Js.units (bytesToHex bs)) = true
  /\ isValidHex (bytesToHex bs) = true.
Proof.
  unfold isValidHex, bytesToHex. rewrite units_str, strip_0x_concat.
  rewrite hex_concat_length, Nat.even_mul, hex_concat_lower.
  split; [done|]. split; [done|]. rewrite andb_true_r.
  apply (forallb_impl lower_hex); [apply lower_hex_is_hex | apply hex_concat_lower].
Qed.

(** X3: on a string that [isValidHex] accepts, [hexToBytes] does not throw;
    it returns one byte per pair of digits, each byte being sixteen times
    the first digit of its pair plus the second. *)
Theorem hexToBytes_valid (hex : string) :
  isValidHex hex = true ->
  exists bs,
    hexToBytes hex = Ok bs
    /\ (2 * length bs = length (strip_0x (Js.units hex)))%nat
    /\ forall i a b, pair_at (strip_0x (Js.units hex)) i a b ->
         exists x, bs !! i = Some x
           /\ byte_value x
              = Z.of_N (default 0%N (Js.digit_val a) * 16
                        + default 0%N (Js.digit_val b)).
Proof.
  unfold isValidHex, hexToBytes. intros [Hhex Heven]%andb_true_iff.
  rewrite Heven. cbn [negb]. by apply hex_pairs_valid.
Qed.

(** X4: a string of lower-case hexadecimal digits of even length decodes
    to bytes whose hexadecimal form is the string itself. *)
Theorem hexToBytes_lower_roundtrip (hex : string) :
  forallb lower_hex (Js.units hex) = true ->
  Nat.even (length (Js.units hex)) = true ->
  exists bs, hexToBytes hex = Ok bs /\ bytesToHex bs = hex.
Proof.
  intros Hlower Heven. unfold hexToBytes, bytesToHex.
  rewrite strip_0x_lower, Heven by done. cbn [negb].
  destruct (hex_pairs_lower _ Hlower Heven) as (bs & Hbs & Hcat).
  exists bs. split; [done|]. by rewrite Hcat, str_units.
Qed.

(** X5: [parseAddress] throws [InvalidAddress], and nothing else, exactly
    on the strings [isValidAddress] rejects; on the others it returns 32
    bytes. *)
Theorem parseAddress_spec (address : string) :
  (parseAddress address = Throw (TesseraError InvalidAddress)
   <-> isValidAddress address = false)
  /\ (forall e, parseAddress address = Throw e -> e = TesseraError InvalidAddress)
  /\ (isValidAddress address = true ->
      exists bs, parseAddress address = Ok bs /\ length bs = 32%nat).
Proof.
  unfold parseAddress.
  destruct (isValidAddress address) eqn:Hvalid; cbn [negb].
  - assert (Hhex : isValidHex address = true).
    { unfold isValidAddress in Hvalid. by destruct (isValidHex address). }
    destruct (hexToBytes_valid address Hhex) as (bs & -> & Hlen & _).
    assert (length bs = 32%nat).
    { unfold isValidAddress in Hvalid. rewrite Hhex in Hvalid. cbn in Hvalid.
      apply Nat.eqb_eq in Hvalid. unfold ADDRESS_LENGTH in Hvalid. lia. }
    split; [split; discriminate|]. split; [discriminate|]. by exists bs.
  - split; [done|]. split; [by intros e [= <-] | discriminate].
Qed.

(** X6: [formatAddress] throws [InvalidAddress] exactly when its argument
    is not 32 bytes long; the string it returns for 32 bytes is accepted by
    [isValidAddress] and [parseAddress] maps it back to the same bytes. *)
Theorem formatAddress_parseAddress (address : bytes) :
  (formatAddress address = Throw (TesseraError InvalidAddress)
   <-> length address <> 32%nat)
  /\ (length address = 32%nat ->
      formatAddress address = Ok (bytesToHex address)
      /\ isValidAddress (bytesToHex address) = true
      /\ parseAddress (bytesToHex address) = Ok address).
Proof.
  unfold formatAddress, ADDRESS_LENGTH.
  destruct (Nat.eqb_spec (length address) 32) as [Hlen|Hlen]; cbn [negb].
  - split; [split; [discriminate | done]|]. intros _. split; [done|].
    assert (Hvalid : isValidAddress (bytesToHex address) = true).
    { unfold isValidAddress.
      destruct (bytesToHex_shape address) as (Hl & _ & ->). cbn [negb].
      unfold bytesToHex in *. rewrite units_str in *.
      rewrite strip_0x_concat, Hl, Hlen. reflexivity. }
    split; [done|]. unfold parseAddress. rewrite Hvalid. cbn [negb].
    apply hexToBytes_bytesToHex.
  - split; [done|]. intros H. by destruct Hlen.
Qed.

(** X7: a lower-case address without prefix that [isValidAddress] accepts
    is parsed to bytes that [formatAddress] prints as the same string. *)
Theorem parseAddress_formatAddress (address : string) :
  isValidAddress address = true ->
  forallb lower_hex (Js.units address) = true ->
  exists bs, parseAddress address = Ok bs /\ formatAddress bs = Ok address.
Proof.
  intros Hvalid Hlower.
  destruct (parseAddress_spec address) as (_ & _ & Hok).
  destruct (Hok Hvalid) as (bs & Hparse & Hlen).
  exists bs. split; [done|].
  assert (Heven : Nat.even (length (Js.units address)) = true).
  { unfold isValidAddress, isValidHex in Hvalid.
    rewrite strip_0x_lower in Hvalid by done.
    by destruct (forallb (Js.is_digit 16) (Js.units address)),
      (Nat.even (length (Js.units address))). }
  destruct (hexToBytes_lower_roundtrip address Hlower Heven) as (bs' & Hbs' & Hhex).
  unfold parseAddress in Hparse. rewrite Hvalid in Hparse. cbn [negb] in Hparse.
  assert (bs' = bs) as -> by congruence.
  unfold formatAddress, ADDRESS_LENGTH. rewrite Hlen. cbn. by rewrite Hhex.
Qed.

Lemma slice_all (l : list ascii) : Js.slice l 0 None = l.
Proof.
  unfold Js.slice, default, id. cbn [from_option].
  change (0 <? 0) with false. cbv iota.
  destruct (Z.ltb_spec (Z.of_nat (length l)) 0); [lia|].
  rewrite (Z.min_l 0), Z.min_id, Z.sub_0_r, Nat2Z.id by lia.
  change (Z.to_nat 0) with 0%nat. rewrite drop_0. by apply take_ge.
Qed.

(** X8: [shortenAddress] with a number of characters [n]: a "0x" in front
    is dropped; an address of at most [2 n] characters is returned whole;
    a longer one becomes its first [n] characters, three dots and its last
    [n] characters when [n > 0]; with [n = 0] the result is three dots
    followed by the whole address. *)
Theorem shortenAddress_spec (address : string) (n : nat) :
  let clean := strip_0x (Js.units address) in
  ((length clean <= 2 * n)%nat ->
   shortenAddress address (Z.of_nat n) = Js.str clean)
  /\ ((0 < n)%nat -> (2 * n < length clean)%nat ->
      shortenAddress address (Z.of_nat n)
      = Js.str (take n clean ++ Js.units "..." ++ drop (length clean - n) clean)
      /\ length (Js.units (shortenAddress address (Z.of_nat n)))
         = (2 * n + 3)%nat)
  /\ (clean <> [] ->
      shortenAddress address 0 = Js.str (Js.units "..." ++ clean)).
Proof.
  intros clean. unfold shortenAddress. fold clean.
  split; [|split].
  - intros Hle. destruct (Z.leb_spec (Z.of_nat (length clean)) (Z.of_nat n * 2));
      [done | lia].
  - intros Hn Hlong.
    destruct (Z.leb_spec (Z.of_nat (length clean)) (Z.of_nat n * 2)); [lia|].
    rewrite slice_prefix.
    destruct (slice_suffix clean n) as [_ ->]; [lia|].
    split; [done|]. rewrite units_str, !length_app, length_take, length_drop.
    cbn. lia.
  - intros Hne.
    destruct (Z.leb_spec (Z.of_nat (length clean)) (0 * 2)).
    + destruct clean; [done | simpl in *; lia].
    + change (- 0) with 0. rewrite slice_all.
      change (Some 0) with (Some (Z.of_nat 0)). by rewrite slice_prefix.
Qed.

(** ** Amounts, continued *)

Lemma digits_and_dots_digits (dots : nat) (l : list ascii) :
  forallb dec_digit l = true -> digits_and_dots dots l = true.
Proof.
  induction l as [|c r IH]; [done|]. cbn.
  intros [Hc Hr]%andb_true_iff. by rewrite dec_digit_not_dot, Hc, IH.
Qed.

Lemma digits_and_dots_point (ip dp : list ascii) :
  forallb dec_digit ip = true -> forallb dec_digit dp = true ->
  digits_and_dots 1 (ip ++ "."%char :: dp) = true.
Proof.
  intros Hip Hdp. induction ip as [|c r IH].
  - cbn. by apply digits_and_dots_digits.
  - cbn in *. apply andb_true_iff in Hip as [Hc Hr].
    by rewrite dec_digit_not_dot, Hc, IH.
Qed.

Lemma str_app (l1 l2 : list ascii) :
  Js.str (l1 ++ l2) = Js.str l1 +:+ Js.str l2.
Proof.
  unfold Js.str. induction l1 as [|c l1 IH]; [done|].
  simpl. by rewrite IH.
Qed.

(** X9: for [b >= 0], [formatAmount b] consists of decimal digits with at
    most one decimal point; different amounts are printed differently; and
    [formatAmountWithSymbol] appends " TESS". *)
Theorem formatAmount_shape :
  (forall b, 0 <= b -> decimal_amount (formatAmount b) = true)
  /\ (forall a b, 0 <= a -> 0 <= b -> formatAmount a = formatAmount b -> a = b)
  /\ (forall b, formatAmountWithSymbol b = formatAmount b +:+ " TESS").
Proof.
  split; [|split].
  - intros b Hb.
    destruct (formatAmount_digits b Hb)
      as (ip & dp & Hip & Hdp & [[-> ->] | ->] & _); unfold decimal_amount;
      rewrite units_str.
    + by apply digits_and_dots_digits.
    + by apply digits_and_dots_point.
  - intros a b Ha Hb Heq.
    pose proof (parseAmount_formatAmount a Ha) as Hpa.
    pose proof (parseAmount_formatAmount b Hb) as Hpb.
    rewrite Heq in Hpa. congruence.
  - intros b. unfold formatAmountWithSymbol.
    by rewrite !str_app, !str_units.
Qed.

Lemma split_length_pos (sep : ascii) (l : list ascii) :
  (1 <= length (Js.split sep l))%nat.
Proof.
  induction l as [|c r IH]; [simpl; lia|]. cbn.
  destruct (Ascii.eqb c sep); [simpl; lia|].
  destruct (Js.split sep r); simpl in *; lia.
Qed.

Lemma split_length_sep (sep : ascii) (a r : list ascii) :
  (1 + length (Js.split sep r) <= length (Js.split sep (a ++ sep :: r)))%nat.
Proof.
  induction a as [|c a IH].
  - cbn. rewrite Ascii.eqb_refl. simpl. lia.
  - cbn. destruct (Ascii.eqb c sep); [simpl in *; lia|].
    destruct (Js.split sep (a ++ sep :: r)); simpl in *; lia.
Qed.

Lemma StringToBigInt_minus_digits (l : list ascii) :
  l <> [] -> forallb dec_digit l = true ->
  Js.StringToBigInt ("-"%char :: l) = Some (- Z.of_N (Js.radix_value 10 l)).
Proof.
  intros Hne Hd. unfold Js.StringToBigInt.
  cbn [Js.skip_ws]. change (Js.is_ws "-") with false. cbv iota.
  cbn [Js.trim_end]. rewrite trim_end_digits by done.
  destruct l as [|c r]; [done|].
  change (Js.code "-" =? 45)%N with true. cbv iota.
  by rewrite digits_in_10.
Qed.

(** X10: what [parseAmount] rejects.  It never returns a negative number;
    a string with two decimal points or more is an [InvalidTransaction];
    so is a minus sign followed by digits, a point and digits that denote a
    non-zero amount. *)
Theorem parseAmount_rejects :
  (forall s v, parseAmount s = Ok v -> 0 <= v)
  /\ (forall a b c : list ascii,
        parseAmount (Js.str (a ++ "."%char :: b ++ "."%char :: c))
        = Throw (TesseraError InvalidTransaction))
  /\ (forall ip dp : list ascii,
        ip <> [] ->
        forallb dec_digit ip = true -> forallb dec_digit dp = true ->
        (0 < Js.radix_value 10 (ip ++ take 6 (dp ++ repeat "0"%char 6)))%N ->
        parseAmount (Js.str ("-"%char :: ip ++ "."%char :: dp))
        = Throw (TesseraError InvalidTransaction)).
Proof.
  split; [|split].
  - intros s v. unfold parseAmount.
    destruct (2 <? length _)%nat; [discriminate|].
    destruct (Js.BigInt _) as [r|]; cbn [mbind result_bind]; [|discriminate].
    destruct (Z.ltb_spec r 0); [discriminate|]. intros [= <-]. lia.
  - intros a b c. unfold parseAmount. rewrite units_str.
    pose proof (split_length_sep "." a (b ++ "."%char :: c)).
    pose proof (split_length_sep "." b c).
    pose proof (split_length_pos "." c).
    destruct (Nat.ltb_spec 2 (length (Js.split "." (a ++ "."%char :: b ++ "."%char :: c))));
      [done | lia].
  - intros ip dp Hne Hip Hdp Hpos. unfold parseAmount. rewrite units_str.
    assert (Hsplit : Js.split "." ("-"%char :: ip ++ "."%char :: dp)
                     = [("-"%char :: ip); dp]).
    { cbn. by rewrite split_dot. }
    assert (Hparts :
      (2 <? length (Js.split "." ("-"%char :: ip ++ "."%char :: dp)))%nat = false
      /\ Js.split "." ("-"%char :: ip ++ "."%char :: dp) !! 0%nat
         = Some ("-"%char :: ip)
      /\ default [] (Js.split "." ("-"%char :: ip ++ "."%char :: dp) !! 1%nat)
         = dp) by by rewrite Hsplit.
    destruct Hparts as (-> & -> & ->). rewrite fraction_digits.
    assert (Hd : forallb dec_digit (ip ++ take 6 (dp ++ repeat "0"%char 6)) = true).
    { rewrite forallb_app, Hip. apply forallb_take.
      by rewrite forallb_app, Hdp, forallb_repeat_zero. }
    unfold Js.BigInt. cbn [app].
    rewrite StringToBigInt_minus_digits; [|by destruct ip | done].
    cbn [mbind result_bind].
    destruct (Z.ltb_spec (- Z.of_N (Js.radix_value 10
                (ip ++ take 6 (dp ++ repeat "0"%char 6)))) 0); [done | lia].
Qed.

Section MoreProperties.
Context {ext : Externals}.

(** ** Canonical encoding, continued *)

Lemma serializeForSigning_flat (tx : Transaction) :
  serializeForSigning tx
  = Js.to_uint8 (ordinal (txType tx))
    :: encodeU64 (Z.of_nat (length (utf8_encode (chainId tx))))
    ++ utf8_encode (chainId tx)
    ++ from tx
    ++ to tx
    ++ encodeU64 (amount tx)
    ++ match payload tx with
       | None => [x00]
       | Some p => x01 :: encodeU64 (Z.of_nat (length p)) ++ p
       end
    ++ encodeU64 (nonce tx)
    ++ encodeU64 (timestamp tx)
    ++ repeat x00 64.
Proof.
  unfold serializeForSigning, body_parts.
  destruct (payload tx) as [p|]; cbn -[encodeU64 repeat];
    by rewrite ?app_nil_r, <- ?app_assoc.
Qed.

Lemma serializeTransaction_flat (tx : Transaction) :
  serializeTransaction tx
  = Js.to_uint8 (ordinal (txType tx))
    :: encodeU64 (Z.of_nat (length (utf8_encode (chainId tx))))
    ++ utf8_encode (chainId tx)
    ++ from tx
    ++ to tx
    ++ encodeU64 (amount tx)
    ++ match payload tx with
       | None => [x00]
       | Some p => x01 :: encodeU64 (Z.of_nat (length p)) ++ p
       end
    ++ encodeU64 (nonce tx)
    ++ encodeU64 (timestamp tx)
    ++ signature tx.
Proof.
  unfold serializeTransaction, body_parts.
  destruct (payload tx) as [p|]; cbn -[encodeU64 repeat];
    by rewrite ?app_nil_r, <- ?app_assoc.
Qed.

(** X11: [serializeTransaction] is [serializeForSigning] with the 64 final
    zero bytes replaced by the signature of the record; the two coincide
    on a record whose signature is the 64 zero bytes; and the length of
    the signing bytes is 98 plus the lengths of the chain id, of [from] and
    of [to], plus 8 and the payload length when a payload is present. *)
Theorem serializeTransaction_spec (tx : Transaction) :
  serializeTransaction tx
  = take (length (serializeForSigning tx) - 64) (serializeForSigning tx)
    ++ signature tx
  /\ (signature tx = repeat x00 64 ->
      serializeTransaction tx = serializeForSigning tx)
  /\ length (serializeForSigning tx)
     = (98 + length (utf8_encode (chainId tx)) + length (from tx)
        + length (to tx)
        + match payload tx with
          | Some p => 8 + length p
          | None => 0
          end)%nat.
Proof.
  assert (Hbody : serializeForSigning tx
                  = concat (body_parts tx) ++ repeat x00 64).
  { unfold serializeForSigning. by rewrite concat_app, (concat_cons _ []), app_nil_r. }
  assert (Hfull : serializeTransaction tx = concat (body_parts tx) ++ signature tx).
  { unfold serializeTransaction. by rewrite concat_app, (concat_cons _ []), app_nil_r. }
  split; [|split].
  - rewrite Hfull, Hbody, length_app, repeat_length.
    by rewrite Nat.add_sub, take_app_length.
  - intros Hsig. by rewrite Hfull, Hbody, Hsig.
  - rewrite serializeForSigning_flat.
    destruct (payload tx); cbn [length];
      rewrite ?length_app, ?encodeU64_length, ?repeat_length; cbn [length];
      rewrite ?length_app, ?encodeU64_length, ?repeat_length; lia.
Qed.

Lemma cons_eq_inv {A} (x y : A) (l k : list A) :
  x :: l = y :: k -> x = y /\ l = k.
Proof. by intros [= -> ->]. Qed.

Lemma encodeU64_inj (a b : Z) :
  0 <= a < 2 ^ 64 -> 0 <= b < 2 ^ 64 -> encodeU64 a = encodeU64 b -> a = b.
Proof.
  intros Ha Hb H. apply (f_equal le_value) in H.
  rewrite !encodeU64_value in H. by rewrite !Z.mod_small in H.
Qed.

Lemma ordinal_byte_inj (k1 k2 : TxType) :
  Js.to_uint8 (ordinal k1) = Js.to_uint8 (ordinal k2) -> k1 = k2.
Proof. by destruct k1, k2. Qed.

Lemma encoded_prefix_inj (n1 n2 : nat) (l1 l2 r1 r2 : bytes) :
  Z.of_nat n1 < 2 ^ 64 -> Z.of_nat n2 < 2 ^ 64 ->
  length l1 = n1 -> length l2 = n2 ->
  encodeU64 (Z.of_nat n1) ++ l1 ++ r1 = encodeU64 (Z.of_nat n2) ++ l2 ++ r2 ->
  l1 = l2 /\ r1 = r2.
Proof.
  intros H1 H2 Hl1 Hl2 H.
  apply app_inj_1 in H as [Hn H]; [|by rewrite !encodeU64_length].
  apply encodeU64_inj in Hn; [|lia..].
  apply app_inj_1 in H; [done | lia].
Qed.

Lemma u64_field_inj (a b : Z) (r1 r2 : bytes) :
  0 <= a < 2 ^ 64 -> 0 <= b < 2 ^ 64 ->
  encodeU64 a ++ r1 = encodeU64 b ++ r2 -> a = b /\ r1 = r2.
Proof.
  intros Ha Hb H.
  apply app_inj_1 in H as [Hn H]; [|by rewrite !encodeU64_length].
  split; [by apply encodeU64_inj | done].
Qed.

Lemma body_inj (tx1 tx2 : Transaction) (s1 s2 : bytes) :
  (forall c1 c2, utf8_encode c1 = utf8_encode c2 -> c1 = c2) ->
  well_formed tx1 -> well_formed tx2 ->
  Js.to_uint8 (ordinal (txType tx1))
    :: encodeU64 (Z.of_nat (length (utf8_encode (chainId tx1))))
    ++ utf8_encode (chainId tx1) ++ from tx1 ++ to tx1
    ++ encodeU64 (amount tx1)
    ++ match payload tx1 with
       | None => [x00]
       | Some p => x01 :: encodeU64 (Z.of_nat (length p)) ++ p
       end
    ++ encodeU64 (nonce tx1) ++ encodeU64 (timestamp tx1) ++ s1
  = Js.to_uint8 (ordinal (txType tx2))
    :: encodeU64 (Z.of_nat (length (utf8_encode (chainId tx2))))
    ++ utf8_encode (chainId tx2) ++ from tx2 ++ to tx2
    ++ encodeU64 (amount tx2)
    ++ match payload tx2 with
       | None => [x00]
       | Some p => x01 :: encodeU64 (Z.of_nat (length p)) ++ p
       end
    ++ encodeU64 (nonce tx2) ++ encodeU64 (timestamp tx2) ++ s2 ->
  txType tx1 = txType tx2 /\ chainId tx1 = chainId tx2
  /\ from tx1 = from tx2 /\ to tx1 = to tx2 /\ amount tx1 = amount tx2
  /\ payload tx1 = payload tx2 /\ nonce tx1 = nonce tx2
  /\ timestamp tx1 = timestamp tx2 /\ s1 = s2.
Proof.
  intros Hutf (Hf1 & Ht1 & Ha1 & Hn1 & Hs1 & Hc1 & Hp1)
    (Hf2 & Ht2 & Ha2 & Hn2 & Hs2 & Hc2 & Hp2) H.
  apply cons_eq_inv in H as [Hk H]. apply ordinal_byte_inj in Hk.
  apply encoded_prefix_inj in H as [Hc H]; [|done..].
  apply Hutf in Hc.
  apply app_inj_1 in H as [Hf H]; [|lia].
  apply app_inj_1 in H as [Ht H]; [|lia].
  apply u64_field_inj in H as [Ha H]; [|done..].
  assert (Hp : payload tx1 = payload tx2
               /\ encodeU64 (nonce tx1) ++ encodeU64 (timestamp tx1) ++ s1
                  = encodeU64 (nonce tx2) ++ encodeU64 (timestamp tx2) ++ s2).
  { unfold payload_length in Hp1, Hp2.
    destruct (payload tx1) as [p1|], (payload tx2) as [p2|];
      cbn [app] in H.
    - apply cons_eq_inv in H as [_ H]. rewrite <- !app_assoc in H.
      apply encoded_prefix_inj in H as [-> H]; [done | done..].
    - apply cons_eq_inv in H as [Hd _]. discriminate Hd.
    - apply cons_eq_inv in H as [Hd _]. discriminate Hd.
    - by apply cons_eq_inv in H as [_ H]. }
  destruct Hp as [Hp H'].
  apply u64_field_inj in H' as [Hn H']; [|done..].
  apply u64_field_inj in H' as [Hs H']; [|done..].
  done.
Qed.

(** X12: the encoding is unambiguous.  When the UTF-8 encoder is injective,
    two well-formed records with the same [serializeTransaction] bytes are
    the same record, and two with the same [serializeForSigning] bytes
    differ at most in their signature. *)
Theorem serialization_injective (tx1 tx2 : Transaction) :
  (forall c1 c2, utf8_encode c1 = utf8_encode c2 -> c1 = c2) ->
  well_formed tx1 -> well_formed tx2 ->
  (serializeTransaction tx1 = serializeTransaction tx2 -> tx1 = tx2)
  /\ (serializeForSigning tx1 = serializeForSigning tx2 ->
      txType tx1 = txType tx2 /\ chainId tx1 = chainId tx2
      /\ from tx1 = from tx2 /\ to tx1 = to tx2 /\ amount tx1 = amount tx2
      /\ payload tx1 = payload tx2 /\ nonce tx1 = nonce tx2
      /\ timestamp tx1 = timestamp tx2).
Proof.
  intros Hutf Hwf1 Hwf2. split.
  - rewrite !serializeTransaction_flat. intros H.
    apply body_inj in H as (? & ? & ? & ? & ? & ? & ? & ? & ?); [|done..].
    destruct tx1, tx2; cbn in *; congruence.
  - rewrite !serializeForSigning_flat. intros H.
    apply body_inj in H as (? & ? & ? & ? & ? & ? & ? & ? & ?); [|done..].
    done.
Qed.

(** ** Signing, continued *)

(** X13: signing again replaces the signature and nothing else: whoever
    signed before, [sign] of a signed record is [sign] of the original; the
    bytes that are signed and the fee do not change by signing; and the
    full serialization of a signed record is the signing bytes with the
    64 zero bytes replaced by the signature. *)
Theorem sign_resign (this other : TransactionBuilder) (tx : Transaction) :
  sign this (sign other tx) = sign this tx
  /\ serializeForSigning (sign this tx) = serializeForSigning tx
  /\ calculateFee (sign this tx) = calculateFee tx
  /\ serializeTransaction (sign this tx)
     = take (length (serializeForSigning tx) - 64) (serializeForSigning tx)
       ++ ed_sign (serializeForSigning tx) (privateKey (keyPair this)).
Proof.
  assert (Hbytes : forall b, serializeForSigning (sign b tx) = serializeForSigning tx)
    by done.
  split; [|split; [done|split; [done|]]].
  - unfold sign at 1. rewrite Hbytes. reflexivity.
  - set (sig := ed_sign (serializeForSigning tx) (privateKey (keyPair this))).
    change (serializeTransaction (sign this tx))
      with (concat (body_parts tx ++ [sig])).
    clearbody sig. unfold serializeForSigning.
    rewrite !concat_app, !(concat_cons _ []), !app_nil_r.
    by rewrite length_app, repeat_length, Nat.add_sub, take_app_length.
Qed.

(** ** Key pairs *)

(** X14: [fromPrivateKey] throws [KeyGenerationError] exactly when the key
    is not 32 bytes long, and [fromSeed] behaves like it on every input; a
    key pair made by [fromPrivateKey] holds the key as given and the public
    key derived from it, and comes back from its hexadecimal private key
    and from its JSON export. *)
Theorem KeyPair_import_export :
  (forall pk, fromPrivateKey pk = Throw (TesseraError KeyGenerationError)
              <-> length pk <> 32%nat)
  /\ (forall seed, fromSeed seed = fromPrivateKey seed)
  /\ (forall pk kp,
        fromPrivateKey pk = Ok kp ->
        privateKey kp = pk /\ publicKey kp = ed_getPublicKey pk
        /\ fromPrivateKeyHex (privateKeyHex kp) = Ok kp
        /\ KeyPair_fromJSON (KeyPair_toJSON kp) = Ok kp).
Proof.
  split; [|split].
  - intros pk. unfold fromPrivateKey.
    destruct (Nat.eqb_spec (length pk) 32); cbn [negb]; split; try done.
  - intros seed. unfold fromSeed, fromPrivateKey.
    by destruct (Nat.eqb_spec (length seed) 32).
  - intros pk kp Hkp.
    assert (Himport : fromPrivateKeyHex (privateKeyHex kp) = Ok kp).
    { unfold fromPrivateKeyHex, privateKeyHex.
      rewrite hexToBytes_bytesToHex. cbn [mbind result_bind].
      unfold fromPrivateKey in *.
      destruct (Nat.eqb_spec (length pk) 32) as [Hlen|]; cbn [negb] in Hkp; [|done].
      injection Hkp as <-. cbn [privateKey]. by rewrite Hlen. }
    unfold fromPrivateKey in Hkp.
    destruct (negb _); [done|]. injection Hkp as <-. done.
Qed.

(** ** Mnemonics, continued *)

Lemma keyPairs_loop_length (mnemonic passphrase : string) (remaining : nat) :
  forall i acc kps,
    keyPairs_loop mnemonic passphrase remaining i acc = Ok kps ->
    length kps = (length acc + remaining)%nat.
Proof.
  induction remaining as [|n IH]; intros i acc kps.
  - cbn. intros [= <-]. lia.
  - cbn [keyPairs_loop].
    destruct (mnemonicToKeyPair mnemonic passphrase i); cbn [mbind result_bind];
      [|done].
    intros H%IH. rewrite length_app in H. simpl in H. lia.
Qed.

(** X15: [mnemonicToKeyPairs] with [count <= 0] returns the empty list,
    also for a phrase that is not valid; with an invalid phrase and
    [count >= 1] it throws [InvalidMnemonic]; when it returns, it returns
    [count] key pairs.  [mnemonicToSeed] throws [InvalidMnemonic] exactly
    on the invalid phrases and otherwise returns the seed. *)
Theorem mnemonicToKeyPairs_edges (mnemonic passphrase : string) :
  (forall count, count <= 0 ->
     mnemonicToKeyPairs mnemonic count passphrase = Ok [])
  /\ (isValidMnemonic mnemonic = false ->
      forall count, 0 < count ->
        mnemonicToKeyPairs mnemonic count passphrase
        = Throw (TesseraError InvalidMnemonic))
  /\ (forall count kps,
        mnemonicToKeyPairs mnemonic count passphrase = Ok kps ->
        length kps = Z.to_nat count)
  /\ (mnemonicToSeed mnemonic passphrase = Throw (TesseraError InvalidMnemonic)
      <-> isValidMnemonic mnemonic = false)
  /\ (isValidMnemonic mnemonic = true ->
      mnemonicToSeed mnemonic passphrase
      = Ok (mnemonicToSeedSync mnemonic passphrase)).
Proof.
  split; [|split; [|split; [|split]]].
  - intros count Hc. unfold mnemonicToKeyPairs. by rewrite Z2Nat.nonpos.
  - intros Hinv count Hc. unfold mnemonicToKeyPairs.
    destruct (Z.to_nat count) as [|n] eqn:Hn; [lia|].
    cbn [keyPairs_loop]. by rewrite mnemonicToKeyPair_invalid.
  - intros count kps H. by apply keyPairs_loop_length in H.
  - unfold mnemonicToSeed. by destruct (isValidMnemonic mnemonic).
  - unfold mnemonicToSeed. by intros ->.
Qed.

(** ** Merkle root, continued *)

Lemma nextLevel_app_even (l r : list bytes) :
  Nat.even (length l) = true ->
  nextLevel (l ++ r) = nextLevel l ++ nextLevel r.
Proof.
  induction l as [l IH] using (induction_ltof1 _ (@length bytes)).
  intros Heven. destruct l as [|a [|b l']]; [done | discriminate Heven |].
  cbn [app nextLevel]. rewrite IH; [done | unfold ltof; simpl; lia | done].
Qed.

(** X16: the root does not tell a level of odd length from the same level
    with its last element written twice: for a non-empty list [l] of even
    length, [l ++ [x]] and [l ++ [x; x]] have the same root. *)
Theorem merkleRoot_duplicate_last (l : list bytes) (x : bytes) :
  l <> [] -> Nat.even (length l) = true ->
  merkleRoot (l ++ [x; x]) = merkleRoot (l ++ [x]).
Proof.
  intros Hne Heven. destruct l as [|a [|b l']]; [done | discriminate Heven |].
  cbn [app]. rewrite !merkleRoot_long.
  change (a :: b :: l' ++ [x; x]) with ((a :: b :: l') ++ [x; x]).
  change (a :: b :: l' ++ [x]) with ((a :: b :: l') ++ [x]).
  by rewrite !nextLevel_app_even.
Qed.

Lemma nextLevel_Forall (P : bytes -> Prop) (l : list bytes) :
  (forall d, P (sha3_256 d)) -> Forall P (nextLevel l).
Proof.
  intros HP. induction l as [l IH] using (induction_ltof1 _ (@length bytes)).
  destruct l as [|a [|b r]]; cbn [nextLevel].
  - constructor.
  - constructor; [apply HP | constructor].
  - constructor; [apply HP|]. apply IH. unfold ltof. simpl. lia.
Qed.

Lemma merkleLoop_Forall (P : bytes -> Prop) (l : list bytes) :
  (forall d, P (sha3_256 d)) -> Forall P l -> Forall P (merkleLoop l).
Proof.
  intros HP. induction l as [l IH] using (induction_ltof1 _ (@length bytes)).
  intros Hl. destruct (decide (1 < length l)%nat) as [Hlong|Hshort].
  - rewrite merkleLoop_step by done. apply IH.
    + by apply nextLevel_shrinks.
    + by apply nextLevel_Forall.
  - by rewrite merkleLoop_short by lia.
Qed.

(** X17: when the digest function returns 32 bytes, the root of a list of
    32-byte digests is 32 bytes long, and so is the root of any list of two
    elements or more, whatever the lengths of its elements. *)
Theorem merkleRoot_length (hashes : list bytes) :
  (forall d, length (sha3_256 d) = 32%nat) ->
  (Forall (fun h => length h = 32%nat) hashes \/ (2 <= length hashes)%nat) ->
  exists root, merkleRoot hashes = Some root /\ length root = 32%nat.
Proof.
  intros Hsha Hin.
  destruct hashes as [|h1 [|h2 rest]].
  - eexists. split; [done|]. apply Hsha.
  - destruct Hin as [Hall | Hlen]; [|simpl in Hlen; lia].
    exists h1. split; [done|]. by apply Forall_inv in Hall.
  - rewrite merkleRoot_long.
    set (level := nextLevel (h1 :: h2 :: rest)).
    assert (Hlevel : Forall (fun h => length h = 32%nat) level)
      by by apply nextLevel_Forall.
    assert (Hne : level <> []).
    { intros Hnil. apply (f_equal length) in Hnil.
      unfold level in Hnil. by rewrite nextLevel_length in Hnil. }
    clearbody level. destruct level as [|a [|b r]]; [done | |].
    + exists a. split; [done|]. by apply Forall_inv in Hlevel.
    + change (merkleRoot (a :: b :: r)) with (merkleLoop (a :: b :: r) !! 0%nat).
      destruct (merkleLoop_singleton (a :: b :: r)) as [h Hh]; [done|].
      pose proof (merkleLoop_Forall _ _ Hsha Hlevel) as Hall.
      rewrite Hh in Hall |- *. exists h. split; [done|].
      by apply Forall_inv in Hall.
Qed.

(** ** Fees and the transfer constructor *)

Lemma calculateFee_formula (tx : Transaction) :
  calculateFee tx
  = match txType tx with
    | Stake | Unstake | SubmitProposal => STAKING_FEE
    | Transfer | Vote =>
        BASE_FEE + ceil_div (payload_length tx) 1024 * FEE_PER_KB_PAYLOAD
    end.
Proof.
  unfold calculateFee, payload_length.
  destruct (txType tx); cbn; try done; by destruct (payload tx).
Qed.

Lemma payload_length_nonneg (tx : Transaction) : 0 <= payload_length tx.
Proof. unfold payload_length. destruct (payload tx); lia. Qed.

Lemma buildTransfer_inv (this : TransactionBuilder) (now : Z)
    (options : TransferOptions) (tx : Transaction) :
  buildTransfer this now options = Ok tx ->
  exists toBytes,
    parseAddress (transfer_to options) = Ok toBytes
    /\ validatePayload (normalizePayload (transfer_payload options)) = Ok tt
    /\ tx = {|
         txType := Transfer;
         chainId := default (defaultChainId this) (transfer_chainId options);
         from := publicKey (keyPair this);
         to := toBytes;
         amount := transfer_amount options;
         payload := normalizePayload (transfer_payload options);
         nonce := transfer_nonce options;
         timestamp := default now (transfer_timestamp options);
         signature := repeat x00 64;
       |}.
Proof.
  unfold buildTransfer.
  destruct (validatePayload _) as [[]|]; cbn [mbind result_bind]; [|done].
  destruct (parseAddress _) as [toBytes|]; cbn [mbind result_bind]; [|done].
  intros [= <-]. by exists toBytes.
Qed.

Lemma validatePayload_ok (p : option bytes) :
  validatePayload p = Ok tt ->
  match p with
  | Some b => (length b <= MAX_PAYLOAD_SIZE)%nat
  | None => True
  end.
Proof.
  unfold validatePayload. destruct p as [b|]; [|done].
  destruct (Nat.ltb_spec MAX_PAYLOAD_SIZE (length b)); [done | lia].
Qed.

(** X18: the fee is at least the base fee; for two records of the same
    kind it does not decrease when the payload gets longer; and a record
    built by [buildTransfer] pays at most the base fee plus ten times the
    per-kilobyte fee. *)
Theorem calculateFee_bounds :
  (forall tx, BASE_FEE <= calculateFee tx)
  /\ (forall tx1 tx2,
        txType tx1 = txType tx2 ->
        payload_length tx1 <= payload_length tx2 ->
        calculateFee tx1 <= calculateFee tx2)
  /\ (forall this now options tx,
        buildTransfer this now options = Ok tx ->
        calculateFee tx <= BASE_FEE + 10 * FEE_PER_KB_PAYLOAD).
Proof.
  split; [|split].
  - intros tx. rewrite calculateFee_formula.
    pose proof (payload_length_nonneg tx).
    pose proof (ceil_div_1024 (payload_length tx)).
    unfold BASE_FEE, STAKING_FEE, FEE_PER_KB_PAYLOAD. destruct (txType tx); lia.
  - intros tx1 tx2 Hk Hlen. rewrite !calculateFee_formula, Hk.
    pose proof (ceil_div_1024 (payload_length tx1)).
    pose proof (ceil_div_1024 (payload_length tx2)).
    unfold FEE_PER_KB_PAYLOAD. destruct (txType tx2); lia.
  - intros this now options tx (toBytes & _ & Hvalid%validatePayload_ok & ->)%buildTransfer_inv.
    rewrite calculateFee_formula. cbn [txType].
    unfold payload_length. cbn [payload].
    unfold MAX_PAYLOAD_SIZE in Hvalid.
    destruct (normalizePayload (transfer_payload options)) as [b|].
    + pose proof (ceil_div_1024 (Z.of_nat (length b))).
      unfold FEE_PER_KB_PAYLOAD. lia.
    + by vm_compute.
Qed.


(** ** JSON wire form, continued *)

(** X20: for a record whose payload is absent or not empty, decoding the
    wire form gives back every field. *)
Theorem json_roundtrip (tx : Transaction) :
  payload tx <> Some [] ->
  jsonToTransaction (transactionToJson tx)
  = Ok (mkTransaction (OwnKind (txType tx)) (chainId tx) (from tx) (to tx)
          (amount tx) (payload tx) (nonce tx) (timestamp tx) (signature tx)).
Proof.
  intros Hp. rewrite jsonToTransaction_transactionToJson.
  by destruct (payload tx) as [[|]|].
Qed.

(** X21: the wire form is exact.  The decimal strings of amount, nonce,
    time stamp and fee read back as the numbers of the record and its fee,
    whatever their size; the hexadecimal strings read back as the bytes;
    the kind is written under its wire name; and when the digest function
    returns 32 bytes, the [hash] field is 64 lower-case hexadecimal
    characters that read back as the digest of [serializeTransaction]. *)
Theorem transactionToJson_exact (tx : Transaction) :
  let json := transactionToJson tx in
  Wire.tx_type json = txTypeName (txType tx)
  /\ Wire.chain_id json = chainId tx
  /\ Js.BigInt (Js.units (Wire.amount json)) = Ok (amount tx)
  /\ Js.BigInt (Js.units (Wire.nonce json)) = Ok (nonce tx)
  /\ Js.BigInt (Js.units (Wire.timestamp json)) = Ok (timestamp tx)
  /\ (exists fee, Wire.fee json = Some fee
                  /\ Js.BigInt (Js.units fee) = Ok (calculateFee tx))
  /\ hexToBytes (Wire.from json) = Ok (from tx)
  /\ hexToBytes (Wire.to json) = Ok (to tx)
  /\ hexToBytes (Wire.signature json) = Ok (signature tx)
  /\ (Wire.payload json = None <-> payload tx = None)
  /\ ((forall d, length (sha3_256 d) = 32%nat) ->
      exists h, Wire.hash json = Some h
        /\ h = calculateHash tx
        /\ length (Js.units h) = 64%nat
        /\ forallb lower_hex (Js.units h) = true
        /\ hexToBytes h = Ok (sha3_256 (serializeTransaction tx))).
Proof.
  cbn zeta. unfold transactionToJson.
  cbn [Wire.tx_type Wire.chain_id Wire.from Wire.to Wire.amount Wire.payload
       Wire.nonce Wire.timestamp Wire.signature Wire.hash Wire.fee].
  rewrite !BigInt_toString, !hexToBytes_bytesToHex.
  repeat (split; [done|]).
  split; [eexists; split; [done | apply BigInt_toString]|].
  repeat (split; [done|]).
  split; [by destruct (payload tx)|].
  intros Hsha. eexists. split; [done|]. split; [done|].
  unfold calculateHash, hash.
  destruct (bytesToHex_shape (sha3_256 (serializeTransaction tx))) as (Hl & Hlow & _).
  rewrite Hl, Hsha, Hlow. repeat split. apply hexToBytes_bytesToHex.
Qed.

(** ** The wallet *)

(** X22: the wallet's connection.  A wallet made without a client, or with
    the empty string as client, is not connected, and asking for its
    client, account, nonce or balance throws [NetworkError] without calling
    the node; [connect] makes it connected, also with the empty string;
    connecting again only replaces the client, and the key pair, the
    builder and the chain id stay what they were. *)
Theorem Wallet_connection (keyPair : KeyPair) (chainId : option string) :
  let offline := newWallet keyPair {| options_client := None;
                                      options_chainId := chainId |} in
  isConnected offline = false
  /\ newWallet keyPair {| options_client := Some (inr ""%string);
                          options_chainId := chainId |} = offline
  /\ (forall this rpc,
        isConnected this = false ->
        getClient this = Throw (TesseraError NetworkError)
        /\ Wallet_getAccount rpc this = Throw (TesseraError NetworkError)
        /\ Wallet_getNonce rpc this = Throw (TesseraError NetworkError)
        /\ Wallet_getBalance rpc this = Throw (TesseraError NetworkError))
  /\ (forall this client,
        isConnected (connect this client) = true
        /\ wallet_keyPair (connect this client) = wallet_keyPair this
        /\ wallet_txBuilder (connect this client) = wallet_txBuilder this
        /\ wallet_chainId (connect this client) = wallet_chainId this)
  /\ (forall this c1 c2, connect (connect this c1) c2 = connect this c2)
  /\ (forall this c, getClient (connect this (inl c)) = Ok c).
Proof.
  cbn zeta. split; [done|]. split; [done|]. split; [|done].
  intros this rpc Hoff. unfold Wallet_getBalance, Wallet_getNonce,
    Wallet_getAccount, getClient. unfold isConnected in Hoff.
  by destruct (wallet_client this).
Qed.

(** X23: offline signing.  With a nonce in the parameters, [signTransfer]
    of the wallet does not use the client: the result is the same whatever
    the connection and the node.  Without one, a wallet that is not
    connected throws [NetworkError], before the amount or the recipient is
    looked at; a connected one signs with the account nonce plus one, and
    fails as the node's answer fails.  The wire transaction it returns is a
    transfer on the chain id of the parameters, or else of the wallet. *)
Theorem Wallet_signTransfer_nonce
    (rpc : TesseraClient -> string -> result Account) (now : Z)
    (this : Wallet) (params : SignTransferParams) :
  (forall n rpc' client,
      params_nonce params = Some n ->
      Wallet_signTransfer rpc' now (connect this client) params
      = Wallet_signTransfer rpc now this params)
  /\ (params_nonce params = None -> isConnected this = false ->
      Wallet_signTransfer rpc now this params
      = Throw (TesseraError NetworkError))
  /\ (forall client e,
        params_nonce params = None -> wallet_client this = Some client ->
        rpc client (Wallet_address this) = Throw e ->
        Wallet_signTransfer rpc now this params = Throw e)
  /\ (forall client account json,
        params_nonce params = None -> wallet_client this = Some client ->
        rpc client (Wallet_address this) = Ok account ->
        Wallet_signTransfer rpc now this params = Ok json ->
        Js.BigInt (Js.units (Wire.nonce json)) = Ok (account_nonce account + 1))
  /\ (forall json,
        Wallet_signTransfer rpc now this params = Ok json ->
        Wire.tx_type json = "transfer"%string
        /\ Wire.chain_id json
           = default (wallet_chainId this) (params_chainId params)
        /\ Wire.from json
           = bytesToHex (publicKey (keyPair (wallet_txBuilder this)))).
Proof.
  assert (Hinv : forall n0 a0 json,
    (tx ← signTransfer (wallet_txBuilder this) now {|
            transfer_to := params_to params;
            transfer_amount := a0;
            transfer_payload := inr <$> params_payload params;
            transfer_nonce := n0;
            transfer_chainId :=
              Some (default (wallet_chainId this) (params_chainId params));
            transfer_timestamp := None |};
     Ok (transactionToJson tx)) = Ok json ->
    Wire.tx_type json = "transfer"%string
    /\ Wire.chain_id json = default (wallet_chainId this) (params_chainId params)
    /\ Wire.from json = bytesToHex (publicKey (keyPair (wallet_txBuilder this)))
    /\ Js.BigInt (Js.units (Wire.nonce json)) = Ok n0).
  { intros n0 a0 json. unfold signTransfer.
    destruct (buildTransfer _ _ _) as [tx|] eqn:Hb; cbn [mbind result_bind];
      [|done].
    apply buildTransfer_inv in Hb as (toBytes & _ & _ & ->).
    intros [= <-]. unfold transactionToJson.
    cbn [Wire.tx_type Wire.chain_id Wire.from Wire.nonce sign txType chainId
         from nonce default from_option id txTypeName].
    by rewrite BigInt_toString. }
  split; [|split; [|split; [|split]]].
  - intros n rpc' client Hn. unfold Wallet_signTransfer. by rewrite Hn.
  - intros Hn Hoff. unfold Wallet_signTransfer, Wallet_getNonce,
      Wallet_getAccount, getClient. rewrite Hn. unfold isConnected in Hoff.
    by destruct (wallet_client this).
  - intros client e Hn Hc Hrpc. unfold Wallet_signTransfer, Wallet_getNonce,
      Wallet_getAccount, getClient. rewrite Hn, Hc. cbn [mbind result_bind].
    by rewrite Hrpc.
  - intros client account json Hn Hc Hrpc. unfold Wallet_signTransfer,
      Wallet_getNonce, Wallet_getAccount, getClient.
    rewrite Hn, Hc. cbn [mbind result_bind]. rewrite Hrpc. cbn [mbind result_bind].
    destruct (match params_amount params with inl s => parseAmount s | inr b => Ok b end)
      as [a0|]; cbn [mbind result_bind]; [|done].
    intros H. by apply Hinv in H as (_ & _ & _ & H).
  - intros json. unfold Wallet_signTransfer.
    destruct (match params_nonce params with Some n => Ok n | None => _ end)
      as [n0|]; cbn [mbind result_bind]; [|done].
    destruct (match params_amount params with inl s => parseAmount s | inr b => Ok b end)
      as [a0|]; cbn [mbind result_bind]; [|done].
    intros H. by apply Hinv in H as (? & ? & ? & _).
Qed.

(** X24: the endpoint of a client: one "/" at the end of the address is
    dropped and no more; an address that does not end in "/" is kept. *)
Theorem newTesseraClient_endpoint (s : list ascii) (c : ascii) :
  endpoint (newTesseraClient (Js.str (s ++ ["/"%char]))) = Js.str s
  /\ (c <> "/"%char ->
      endpoint (newTesseraClient (Js.str (s ++ [c]))) = Js.str (s ++ [c]))
  /\ endpoint (newTesseraClient ""%string) = ""%string.
Proof.
  unfold newTesseraClient. cbn [endpoint]. rewrite !units_str.
  split; [|split; [|done]].
  - rewrite reverse_snoc. cbn [Ascii.eqb Bool.eqb].
    change (Some (-1)) with (Some (- Z.of_nat 1)).
    destruct (slice_suffix (s ++ ["/"%char]) 1) as [-> _].
    + rewrite length_app. simpl. lia.
    + rewrite length_app. cbn [length]. rewrite Nat.add_sub.
      by rewrite take_app_length.
  - intros Hc. rewrite reverse_snoc.
    destruct (Ascii.eqb_spec c "/"); done.
Qed.
End MoreProperties.

Section WalletProperties.
Context {ext : Externals}.

(** X25: [Wallet.fromMnemonic] throws [InvalidMnemonic] on a phrase that is
    not valid.  On a valid one, the digest function returning 32 bytes, it
    gives a wallet that holds the key pair derived from the phrase, the
    passphrase (empty by default) and the account index (0 by default);
    its builder signs with that key pair and has the wallet's chain id,
    which is the one of the options or else the empty string; its address
    is the hexadecimal form of the derived public key. *)
Theorem Wallet_fromMnemonic_spec (mnemonic : string) (options : WalletOptions)
    (passphrase : option string) (accountIndex : option Z) :
  (isValidMnemonic mnemonic = false ->
   Wallet_fromMnemonic mnemonic options passphrase accountIndex
   = Throw (TesseraError InvalidMnemonic))
  /\ ((forall d, length (sha3_256 d) = 32%nat) ->
      isValidMnemonic mnemonic = true ->
      exists w,
        Wallet_fromMnemonic mnemonic options passphrase accountIndex = Ok w
        /\ wallet_keyPair w
           = derived_keyPair mnemonic (default ""%string passphrase)
               (default 0 accountIndex)
        /\ keyPair (wallet_txBuilder w) = wallet_keyPair w
        /\ defaultChainId (wallet_txBuilder w) = wallet_chainId w
        /\ wallet_chainId w = default ""%string (options_chainId options)
        /\ Wallet_address w
           = bytesToHex (ed_getPublicKey (privateKey (wallet_keyPair w)))).
Proof.
  unfold Wallet_fromMnemonic. split.
  - by intros ->.
  - intros Hsha Hvalid. rewrite Hvalid. cbn [negb].
    rewrite mnemonicToKeyPair_valid by done. cbn [mbind result_bind].
    eexists. split; [done|]. by repeat split.
Qed.
End WalletProperties.

(** ** Instances of the further statements *)

#[local] Existing Instance sample_externals.

Lemma hexToBytes_valid_witness :
  exists bs, hexToBytes "0xAb01" = Ok bs
             /\ (2 * length bs = 4)%nat
             /\ exists x, bs !! 0%nat = Some x /\ byte_value x = 171.
Proof.
  destruct (hexToBytes_valid "0xAb01" eq_refl) as (bs & Hbs & Hlen & Hval).
  exists bs. split; [done|]. split; [done|].
  apply (Hval 0%nat "A"%char "b"%char). by split.
Defined.

Lemma hexToBytes_lower_roundtrip_witness :
  exists bs, hexToBytes "00ff12ab" = Ok bs /\ bytesToHex bs = "00ff12ab"%string.
Proof. by apply hexToBytes_lower_roundtrip. Defined.

Lemma parseAddress_spec_witness :
  exists bs, parseAddress sample_address = Ok bs /\ length bs = 32%nat.
Proof. by apply (parseAddress_spec sample_address). Defined.

Lemma formatAddress_parseAddress_witness :
  formatAddress (repeat x03 32) = Ok (bytesToHex (repeat x03 32))
  /\ isValidAddress (bytesToHex (repeat x03 32)) = true
  /\ parseAddress (bytesToHex (repeat x03 32)) = Ok (repeat x03 32).
Proof. by apply (formatAddress_parseAddress (repeat x03 32)). Defined.

Lemma parseAddress_formatAddress_witness :
  exists bs, parseAddress sample_address = Ok bs
             /\ formatAddress bs = Ok sample_address.
Proof. by apply parseAddress_formatAddress. Defined.

Lemma shortenAddress_spec_witness :
  shortenAddress "0xabcdef1234567890" 3 = "abc...890"%string.
Proof.
  apply (proj1 (proj2 (shortenAddress_spec "0xabcdef1234567890" 3))); cbn; lia.
Defined.

Lemma formatAmount_shape_witness :
  decimal_amount (formatAmount 100500000) = true.
Proof. apply formatAmount_shape. lia. Defined.

Lemma parseAmount_rejects_witness :
  parseAmount "-1.5" = Throw (TesseraError InvalidTransaction).
Proof.
  by apply (proj2 (proj2 parseAmount_rejects) (Js.units "1") (Js.units "5")).
Defined.

Lemma serializeTransaction_spec_witness :
  serializeTransaction sample_stake
  = serializeForSigning sample_stake.
Proof. by apply (serializeTransaction_spec sample_stake). Defined.

Lemma sample_utf8_encode_inj (c1 c2 : string) :
  utf8_encode c1 = utf8_encode c2 -> c1 = c2.
Proof.
  cbn [utf8_encode sample_externals]. intros H.
  rewrite <- (str_units c1), <- (str_units c2). f_equal.
  revert H. generalize (Js.units c1) (Js.units c2).
  induction l as [|a l IH]; intros [|b k]; cbn; try done.
  intros [= Hab Hlk]. f_equal; [|by apply IH].
  apply (f_equal ascii_of_byte) in Hab.
  by rewrite !ascii_of_byte_of_ascii in Hab.
Qed.

Lemma sample_well_formed :
  well_formed sample_transfer
  /\ well_formed sample_stake.
Proof. split; repeat split; cbn; lia. Qed.

Lemma serialization_injective_witness : sample_transfer = sample_transfer.
Proof.
  apply (proj1 (serialization_injective sample_transfer sample_transfer
                  sample_utf8_encode_inj
                  (proj1 sample_well_formed) (proj1 sample_well_formed))).
  reflexivity.
Defined.

Lemma KeyPair_import_export_witness :
  exists kp,
    fromPrivateKey (repeat x01 32) = Ok kp
    /\ KeyPair_fromJSON (KeyPair_toJSON kp) = Ok kp.
Proof.
  eexists. split; [reflexivity|].
  by apply (proj2 (proj2 (KeyPair_import_export))
              (repeat x01 32)).
Defined.

Lemma mnemonicToKeyPairs_edges_witness :
  mnemonicToKeyPairs "" 3 ""
  = Throw (TesseraError InvalidMnemonic)
  /\ mnemonicToKeyPairs "" 0 "" = Ok [].
Proof.
  destruct (mnemonicToKeyPairs_edges "" "")
    as (Hzero & Hinv & _).
  split; [by apply Hinv | by apply Hzero].
Defined.

Lemma merkleRoot_duplicate_last_witness :
  merkleRoot [[x01]; [x02]; [x03]; [x03]]
  = merkleRoot [[x01]; [x02]; [x03]].
Proof.
  by apply (merkleRoot_duplicate_last [[x01]; [x02]] [x03]).
Defined.

Lemma merkleRoot_length_witness :
  exists root,
    merkleRoot [[x01]; [x02]; [x03]] = Some root
    /\ length root = 32%nat.
Proof.
  apply (merkleRoot_length); [apply sample_sha3_256_length|].
  right. simpl. lia.
Defined.

Lemma calculateFee_bounds_witness :
  calculateFee sample_stake <= calculateFee sample_stake
  /\ exists tx,
       buildTransfer sample_builder 0 sample_transfer_options
       = Ok tx
       /\ calculateFee tx <= BASE_FEE + 10 * FEE_PER_KB_PAYLOAD.
Proof.
  destruct (calculateFee_bounds) as (_ & Hmono & Hbuilt).
  split; [by apply Hmono|].
  destruct (buildTransfer sample_builder 0
              sample_transfer_options) as [tx|e] eqn:Hb;
    [|vm_compute in Hb; discriminate Hb].
  exists tx. split; [done|]. by apply (Hbuilt _ _ _ _ Hb).
Defined.


Lemma json_roundtrip_witness :
  jsonToTransaction (transactionToJson sample_stake)
  = Ok (mkTransaction (OwnKind Stake) "tessera-local" (repeat x02 32)
          (repeat x02 32) 100000000000 None 2 1699876543 (repeat x00 64)).
Proof. by apply (json_roundtrip sample_stake). Defined.

Lemma transactionToJson_exact_witness :
  exists h,
    Wire.hash (transactionToJson sample_stake) = Some h
    /\ length (Js.units h) = 64%nat.
Proof.
  destruct (transactionToJson_exact sample_stake)
    as (_ & _ & _ & _ & _ & _ & _ & _ & _ & _ & Hhash).
  destruct (Hhash sample_sha3_256_length) as (h & Hh & _ & Hlen & _).
  by exists h.
Defined.

Lemma Wallet_connection_witness :
  getClient sample_wallet = Throw (TesseraError NetworkError).
Proof.
  by apply (proj1 (proj2 (proj2 (Wallet_connection
             sample_keyPair (Some "tessera-local"%string))))
             sample_wallet (fun _ _ => Ok sample_account)).
Defined.

Lemma Wallet_signTransfer_nonce_witness :
  Wallet_signTransfer (fun _ _ => Ok sample_account) 0
    sample_wallet sample_params
  = Throw (TesseraError NetworkError)
  /\ exists json,
       Wallet_signTransfer (fun _ _ => Ok sample_account) 0
         (connect sample_wallet (inr "http://localhost:8545/"%string))
         sample_params = Ok json
       /\ Js.BigInt (Js.units (Wire.nonce json)) = Ok 42.
Proof.
  split.
  - by apply (Wallet_signTransfer_nonce).
  - destruct (Wallet_signTransfer
                (fun _ _ => Ok sample_account) 0
                (connect sample_wallet (inr "http://localhost:8545/"%string))
                sample_params) as [json|e] eqn:Hs;
      [|vm_compute in Hs; discriminate Hs].
    exists json. split; [done|].
    destruct (Wallet_signTransfer_nonce
                (fun _ _ => Ok sample_account) 0
                (connect sample_wallet (inr "http://localhost:8545/"%string))
                sample_params) as (_ & _ & _ & Hnonce & _).
    by apply (Hnonce (newTesseraClient "http://localhost:8545/") sample_account).
Defined.

Lemma newTesseraClient_endpoint_witness :
  endpoint (newTesseraClient "http://localhost:8545") = "http://localhost:8545"%string.
Proof.
  by apply (proj1 (proj2 (newTesseraClient_endpoint
              (Js.units "http://localhost:854") "5"%char))).
Defined.

Lemma Wallet_fromMnemonic_spec_witness :
  exists w,
    Wallet_fromMnemonic "abandon about"
      {| options_client := None; options_chainId := None |} None (Some 1)
    = Ok w
    /\ wallet_keyPair w = derived_keyPair "abandon about" "" 1.
Proof.
  destruct (Wallet_fromMnemonic_spec "abandon about"
              {| options_client := None; options_chainId := None |}
              None (Some 1)) as [_ Hok].
  destruct (Hok sample_sha3_256_length eq_refl) as (w & Hw & Hkp & _).
  by exists w.
Defined.
